(** * Spectractor: the Metropolis walk of [Extractor_MCMC]

    A shallow embedding of [Extractor_MCMC.prior], [Extractor_MCMC.mcmc]
    and [Extractor_MCMC.run_mcmc] (src/spectractor/extractor.py), and the
    properties of the sampler that the specification states about them.

    Python floats are modelled by [float64]: the IEEE special values are
    kept apart, finite values are real numbers.  Arithmetic on finite
    values is exact; [np_exp] leaves the finite range at the limits of the
    binary64 format.  Zeros carry no sign. *)

From Stdlib Require Import Reals Lra Lia ZArith List Bool.
From Stdlib Require String Ascii.
Import ListNotations.
Import String.StringSyntax.

Delimit Scope string_scope with string.

Local Open Scope R_scope.

(** ** Python floats *)

Inductive float64 : Type :=
| Fin (x : R)
| PInf
| NInf
| NaN.

Definition Rltb (x y : R) : bool := if Rlt_dec x y then true else false.
Definition Rleb (x y : R) : bool := if Rle_dec x y then true else false.

(** [a < b]: every comparison with NaN is False. *)
Definition flt (a b : float64) : bool :=
  match a, b with
  | Fin x, Fin y => Rltb x y
  | Fin _, PInf | NInf, Fin _ | NInf, PInf => true
  | _, _ => false
  end.

(** [a > b] *)
Definition fgt (a b : float64) : bool := flt b a.

(** [a <= b] *)
Definition fle (a b : float64) : bool :=
  match a, b with
  | Fin x, Fin y => Rleb x y
  | Fin _, PInf | NInf, Fin _ | NInf, PInf | NInf, NInf | PInf, PInf => true
  | _, _ => false
  end.

Definition is_nan (a : float64) : bool :=
  match a with NaN => true | _ => false end.

(** [np.isfinite] *)
Definition isfinite (a : float64) : bool :=
  match a with Fin _ => true | _ => false end.

(** [-a] *)
Definition fneg (a : float64) : float64 :=
  match a with
  | Fin x => Fin (- x)
  | PInf => NInf
  | NInf => PInf
  | NaN => NaN
  end.

(** [a + b]: opposite infinities add up to NaN. *)
Definition fadd (a b : float64) : float64 :=
  match a, b with
  | NaN, _ | _, NaN => NaN
  | Fin x, Fin y => Fin (x + y)
  | PInf, NInf | NInf, PInf => NaN
  | PInf, _ | _, PInf => PInf
  | NInf, _ | _, NInf => NInf
  end.

(** [a - b] *)
Definition fsub (a b : float64) : float64 := fadd a (fneg b).

(** The sign of a finite factor: zero times an infinity is NaN. *)
Definition scale_inf (x : R) (pos : bool) : float64 :=
  if Rltb 0 x then (if pos then PInf else NInf)
  else if Rltb x 0 then (if pos then NInf else PInf)
  else NaN.

(** [a * b] *)
Definition fmul (a b : float64) : float64 :=
  match a, b with
  | NaN, _ | _, NaN => NaN
  | Fin x, Fin y => Fin (x * y)
  | Fin x, PInf | PInf, Fin x => scale_inf x true
  | Fin x, NInf | NInf, Fin x => scale_inf x false
  | PInf, PInf | NInf, NInf => PInf
  | PInf, NInf | NInf, PInf => NInf
  end.

(** [a / b] as numpy divides: no exception, a zero divisor gives an
    infinity of the sign of the dividend, or NaN for 0/0. *)
Definition fdiv (a b : float64) : float64 :=
  match a, b with
  | NaN, _ | _, NaN => NaN
  | Fin x, Fin y =>
      if Rltb 0 y || Rltb y 0 then Fin (x / y) else scale_inf x true
  | Fin _, (PInf | NInf) => Fin 0
  | PInf, Fin y => if Rltb y 0 then NInf else PInf
  | NInf, Fin y => if Rltb y 0 then PInf else NInf
  | (PInf | NInf), (PInf | NInf) => NaN
  end.

(** The least positive binary64 number is [2^-1074]: a positive result
    of at most half of it rounds to zero. *)
Definition f64_underflow : R := / 2 ^ 1075.

(** Results from [2^1024] on overflow to infinity. *)
Definition f64_overflow : R := 2 ^ 1024.

(** [np.exp] *)
Definition np_exp (a : float64) : float64 :=
  match a with
  | NaN => NaN
  | PInf => PInf
  | NInf => Fin 0
  | Fin x =>
      if Rleb (exp x) f64_underflow then Fin 0
      else if Rleb f64_overflow (exp x) then PInf
      else Fin (exp x)
  end.

Arguments np_exp : simpl never.

(** ** Exceptions *)

Inductive exn : Type :=
| IndexError
| ValueError.

(** The outcome of running Python code: a value, a raised exception, or
    a loop that has not finished within the fuel it was given. *)
Inductive result (A : Type) : Type :=
| Ok (a : A)
| Raise (e : exn)
| OutOfFuel.

Arguments Ok {A} a.
Arguments Raise {A} e.
Arguments OutOfFuel {A}.

Definition bind {A B : Type} (r : result A) (k : A -> result B) : result B :=
  match r with
  | Ok a => k a
  | Raise e => Raise e
  | OutOfFuel => OutOfFuel
  end.

Notation "x <- r ;; k" := (bind r (fun x => k))
  (at level 61, r at next level, right associativity).
Notation "' p <- r ;; k" := (bind r (fun x => let p := x in k))
  (at level 61, p pattern, r at next level, right associativity).

(** [t[i]] on a tuple or an array, for an index that is not negative. *)
Definition getitem {A : Type} (t : list A) (i : nat) : result A :=
  match nth_error t i with
  | Some a => Ok a
  | None => Raise IndexError
  end.

(** ** Parameter vectors and bounds *)

Definition vec : Type := list float64.

(** [self.bounds]: the tuple of lower bounds and the tuple of upper
    bounds. *)
Definition bounds_t : Type := (list float64 * list float64)%type.

(** [Extractor.__init__]:
    [self.bounds = ((0, 0, 0, 0, 0, 1, -20), (np.inf, 1.0, np.inf, 10, 1.0, 100, 20))] *)
Definition Extractor_bounds : bounds_t :=
  ([Fin 0; Fin 0; Fin 0; Fin 0; Fin 0; Fin 1; Fin (-20)],
   [PInf; Fin 1; PInf; Fin 10; Fin 1; Fin 100; Fin 20]).

(** [Extractor.__init__]: [self.p] before its amplitude is rescaled. *)
Definition Extractor_p : vec :=
  [Fin 1; Fin 0.1; Fin 300; Fin 3; Fin 0.03; Fin 10; Fin 1e-3].

(** The loop of [Extractor_MCMC.prior]: [Ok false] when it leaves
    through [break], [Ok true] when it runs to the end of [p]. *)
Fixpoint prior_loop (bounds : bounds_t) (npar : nat) (p : vec) : result bool :=
  match p with
  | [] => Ok true
  | par :: rest =>
      lo <- getitem (fst bounds) npar ;;
      if flt par lo then Ok false
      else
        hi <- getitem (snd bounds) npar ;;
        if fgt par hi then Ok false
        else prior_loop bounds (S npar) rest
  end.

(** [Extractor_MCMC.prior] *)
Definition prior (bounds : bounds_t) (p : vec) : result float64 :=
  in_bounds <- prior_loop bounds 0 p ;;
  if in_bounds then Ok (Fin 1) else Ok (Fin 0).

(** ** Arrays *)

(** The larger of two floats as [np.max] folds them: NaN wins. *)
Definition fmax2 (a b : float64) : float64 :=
  if is_nan a then NaN
  else if is_nan b then NaN
  else if flt a b then b else a.

(** [np.max]: ValueError on an empty array. *)
Definition np_max (a : list float64) : result float64 :=
  match a with
  | [] => Raise ValueError
  | x :: rest => Ok (fold_left fmax2 rest x)
  end.

(** [range(a, b)] *)
Definition py_range (a b : Z) : list Z :=
  map (fun k => (a + Z.of_nat k)%Z) (seq 0 (Z.to_nat (b - a))).

(** ** The row log *)

(** Modelled from the spec: the row that [Chain.make_dictline] builds
    (module mcmc is not part of the sources): chain id, local step index,
    cost value and the full parameter vector. *)
Record dictline : Type := mk_dictline {
  row_chain : Z;
  row_index : Z;
  row_chisq : float64;
  row_params : vec }.

(** A row under its key. *)
Definition row : Type := (Z * dictline)%type.

(** What the walk draws from the generator. *)
Inductive draw : Type :=
| Proposal (v : vec)
| Uniform (r : R).

(** ** What the walk takes from numpy.random and from module mcmc *)

(** The parameters of the development: the generator of numpy.random
    ([seed], [uniform(0, 1)]) and the numerical parts of module mcmc, which
    is not part of the sources: the proposal of [Chain.draw_vector] (a draw
    around a centre under the chain's proposal covariance, taken from the
    generator of the process), the adaptation of
    [Chain.update_proposal_cov] and the summary that
    [Chains.chains_to_likelihood] builds from the row log. *)
Class External : Type := {
  rng : Type;
  cov : Type;
  likelihood_t : Type;
  np_random_seed : Z -> rng;
  np_random_uniform : rng -> R * rng;
  draw_vector : cov -> vec -> rng -> vec * rng;
  update_proposal_cov : cov -> vec -> cov;
  chains_to_likelihood : list row -> likelihood_t }.

Section Walk.

Context {E : External}.

(** The attributes of a [Chain] that [Extractor_MCMC.mcmc] reads and
    writes, and its buffer of rows. *)
Record Chain : Type := mkChain {
  nchain : Z;
  nsteps : Z;
  start_vec : vec;
  start_key : Z;
  start_index : Z;
  proposal_cov : cov;
  rows : list row }.

(** Modelled from the spec: [Chain.make_dictline(i, chisq, vec)]. *)
Definition make_dictline (c : Chain) (i : Z) (chisq : float64) (v : vec) : dictline :=
  {| row_chain := nchain c; row_index := i; row_chisq := chisq; row_params := v |}.

(** Modelled from the spec: [Chain.newrow(dictline, key=...)] appends one
    row to the chain's buffer. *)
Definition newrow (c : Chain) (d : dictline) (key : Z) : Chain :=
  {| nchain := nchain c; nsteps := nsteps c; start_vec := start_vec c;
     start_key := start_key c; start_index := start_index c;
     proposal_cov := proposal_cov c; rows := rows c ++ [(key, d)] |}.

Definition set_start_index (c : Chain) (i : Z) : Chain :=
  {| nchain := nchain c; nsteps := nsteps c; start_vec := start_vec c;
     start_key := start_key c; start_index := i;
     proposal_cov := proposal_cov c; rows := rows c |}.

Definition set_start_vec (c : Chain) (v : vec) : Chain :=
  {| nchain := nchain c; nsteps := nsteps c; start_vec := v;
     start_key := start_key c; start_index := start_index c;
     proposal_cov := proposal_cov c; rows := rows c |}.

Definition set_proposal_cov (c : Chain) (k : cov) : Chain :=
  {| nchain := nchain c; nsteps := nsteps c; start_vec := start_vec c;
     start_key := start_key c; start_index := start_index c;
     proposal_cov := k; rows := rows c |}.

(** Modelled from the spec: [Chain.append2file(filename)] appends the
    buffered rows to the row log. *)
Definition append2file (c : Chain) (file : list row) : list row :=
  file ++ rows c.

(** The rows of chain [n] in the log. *)
Definition chain_rows (file : list row) (n : Z) : list row :=
  filter (fun r => (row_chain (snd r) =? n)%Z) file.

(** Modelled from the spec: [Chain(chains_filename, covfile, nchain,
    nsteps)].  A chain without rows in the log starts at step 0 from the
    starting vector of the configuration, with [start_key = -1]; a chain
    with [k] rows gets the key and the vector of its last row, and the
    local index [k - 1] of that row as its cursor. *)
Definition Chain_init (file : list row) (covfile : vec * cov) (n total : Z) : Chain :=
  let mine := chain_rows file n in
  match rev mine with
  | [] =>
      {| nchain := n; nsteps := total; start_vec := fst covfile;
         start_key := -1; start_index := 0;
         proposal_cov := snd covfile; rows := [] |}
  | (key, line) :: _ =>
      {| nchain := n; nsteps := total; start_vec := row_params line;
         start_key := key; start_index := Z.of_nat (length mine) - 1;
         proposal_cov := snd covfile; rows := [] |}
  end.

(** Modelled from the spec: [Chains.check_completness()] reports whether
    all chains already have the configured number of rows. *)
Definition check_completness (file : list row) (n total : Z) : bool :=
  forallb (fun i => (total <=? Z.of_nat (length (chain_rows file i)))%Z)
          (py_range 0 n).

(** ** The sampler object *)

(** The attributes of [self] that the walk reads.  The forward simulator
    and the cost it feeds are callables of the parameter vector;
    [simulation] returns the model and its error on the wavelength grid. *)
Record Extractor_MCMC : Type := {
  bounds : bounds_t;
  spectrum_data : list float64;
  spectrum_lambdas_size : Z;
  exploration_time : Z;
  self_nchains : Z;
  self_nsteps : Z;
  covfile : vec * cov;
  simulation : vec -> list float64 * list float64;
  chisq : vec -> float64 }.

(** The state of the process that runs a walk: numpy's generator, the row
    log on disk, and two records kept for the statements below: the
    vectors [self.chisq] was called on and the values drawn. *)
Record proc : Type := mkProc {
  np_random : rng;
  chains_file : list row;
  chisq_calls : list vec;
  draws : list draw }.

(** The local variables of [mcmc] that live across the iterations. *)
Record walker : Type := mkWalker {
  vec1 : vec;
  chisq1 : float64;
  L1 : float64 }.

Definition set_np_random (s : proc) (g : rng) : proc :=
  {| np_random := g; chains_file := chains_file s;
     chisq_calls := chisq_calls s; draws := draws s |}.

(** [chain.draw_vector(centre)] in process [s] *)
Definition call_draw_vector (c : Chain) (centre : vec) (s : proc) : vec * proc :=
  let (v, g) := draw_vector (proposal_cov c) centre (np_random s) in
  (v, {| np_random := g; chains_file := chains_file s;
         chisq_calls := chisq_calls s; draws := draws s ++ [Proposal v] |}).

(** [np.random.uniform(0, 1)] in process [s] *)
Definition call_uniform (s : proc) : R * proc :=
  let (r, g) := np_random_uniform (np_random s) in
  (r, {| np_random := g; chains_file := chains_file s;
         chisq_calls := chisq_calls s; draws := draws s ++ [Uniform r] |}).

(** [self.chisq(p)] in process [s] *)
Definition call_chisq (self : Extractor_MCMC) (p : vec) (s : proc) : float64 * proc :=
  (chisq self p,
   {| np_random := np_random s; chains_file := chains_file s;
      chisq_calls := chisq_calls s ++ [p]; draws := draws s |}).

(** ** [Extractor_MCMC.mcmc] *)

(** Lines 261-265: the initialisation of a chain without rows,
    [while prior1 < 1e-9]. *)
Fixpoint draw_first (fuel : nat) (self : Extractor_MCMC) (c : Chain) (s : proc)
  : result (vec * proc) :=
  match fuel with
  | O => OutOfFuel
  | S fuel' =>
      let (v, s') := call_draw_vector c (start_vec c) s in
      prior1 <- prior (bounds self) v ;;
      if flt prior1 (Fin 1e-9) then draw_first fuel' self c s'
      else Ok (v, s')
  end.

(** Lines 258-267: the vector the walk starts from, before it is
    rescaled; a chain with rows moves its cursor past the last row. *)
Definition first_vector (fuel : nat) (self : Extractor_MCMC) (c : Chain) (s : proc)
  : result (vec * Chain * proc) :=
  if (start_key c =? -1)%Z then
    '(v, s') <- draw_first fuel self c s ;;
    Ok (v, c, s')
  else Ok (start_vec c, set_start_index c (start_index c + 1), s).

(** Lines 268-269: [np.max(sim)] ranges over both arrays that
    [simulation] returns. *)
Definition rescale (self : Extractor_MCMC) (v : vec) : result vec :=
  let sim := simulation self v in
  m <- np_max (fst sim ++ snd sim) ;;
  if fgt m (Fin 0) then
    v0 <- getitem v 0 ;;
    d <- np_max (spectrum_data self) ;;
    Ok (fmul v0 (fdiv d m) :: tl v)
  else Ok v.

(** Lines 257-272.  On a chain with rows [vec1] is the array
    [chain.start_vec] itself, so the in-place product of line 269 changes
    that attribute too. *)
Definition mcmc_start (fuel : nat) (self : Extractor_MCMC) (c : Chain) (s : proc)
  : result (walker * Chain * proc) :=
  let s0 := set_np_random s (np_random_seed (nchain c)) in
  '(v, c1, s1) <- first_vector fuel self c s0 ;;
  v' <- rescale self v ;;
  let c2 := if (start_key c =? -1)%Z then c1 else set_start_vec c1 v' in
  let (chisq1, s2) := call_chisq self v' s1 in
  let L1 := np_exp (fadd (fmul (Fin (-0.5)) chisq1)
                         (fmul (Fin 0.5) (Fin (IZR (spectrum_lambdas_size self))))) in
  Ok ({| vec1 := v'; chisq1 := chisq1; L1 := L1 |}, c2, s2).

(** Lines 291-294: the cost of a candidate of prior weight [prior2]. *)
Definition candidate_cost (self : Extractor_MCMC) (vec2 : vec) (prior2 : float64)
    (s : proc) : float64 * proc :=
  if fgt prior2 (Fin 1e-10) then call_chisq self vec2 s
  else (Fin 1e20, s).

(** Line 303: the test [np.exp(-0.5 * (chisq2 - chisq1)) > r]. *)
Definition metropolis_test (chisq1 chisq2 : float64) (r : R) : bool :=
  fgt (np_exp (fmul (Fin (-0.5)) (fsub chisq2 chisq1))) (Fin r).

(** Lines 303-309: the row of step [i] and the state after the
    decision. *)
Definition decide (c : Chain) (i : Z) (w : walker) (vec2 : vec)
    (chisq2 L2 : float64) (r : R) : dictline * walker :=
  if metropolis_test (chisq1 w) chisq2 r then
    (make_dictline c i chisq2 vec2,
     {| vec1 := vec2; chisq1 := chisq2; L1 := L2 |})
  else (make_dictline c i (chisq1 w) (vec1 w), w).

(** Lines 282-315: one iteration of the walk. *)
Definition mcmc_step (self : Extractor_MCMC) (i : Z) (st : walker * Chain * proc)
  : result (walker * Chain * proc) :=
  let '(w, c, s) := st in
  let (vec2, s1) := call_draw_vector c (vec1 w) s in
  prior2 <- prior (bounds self) vec2 ;;
  let (chisq2, s2) := candidate_cost self vec2 prior2 s1 in
  let L2 := np_exp (fmul (Fin (-0.5)) chisq2) in
  let (r, s3) := call_uniform s2 in
  let (line, w') := decide c i w vec2 chisq2 L2 r in
  let c1 := newrow c line (i + nchain c * nsteps c)%Z in
  let c2 := if (i >? exploration_time self)%Z
            then set_proposal_cov c1 (update_proposal_cov (proposal_cov c1) (vec1 w'))
            else c1 in
  Ok (w', c2, s3).

(** Lines 277-317: the loop over [keys]. *)
Fixpoint mcmc_loop (self : Extractor_MCMC) (keys : list Z) (st : walker * Chain * proc)
  : result (walker * Chain * proc) :=
  match keys with
  | [] => Ok st
  | i :: rest =>
      st' <- mcmc_step self i st ;;
      mcmc_loop self rest st'
  end.

(** Line 274 *)
Definition mcmc_keys (c : Chain) : list Z := py_range (start_index c) (nsteps c).

(** [Extractor_MCMC.mcmc]: the chain and the process when it returns. *)
Definition mcmc (fuel : nat) (self : Extractor_MCMC) (c : Chain) (s : proc)
  : result (Chain * proc) :=
  '(w, c1, s1) <- mcmc_start fuel self c s ;;
  '(_, c2, s2) <- mcmc_loop self (mcmc_keys c1) (w, c1, s1) ;;
  Ok (c2, {| np_random := np_random s2;
             chains_file := append2file c2 (chains_file s2);
             chisq_calls := chisq_calls s2; draws := draws s2 |}).


(** ** [Extractor_MCMC.run_mcmc] *)

(** What a worker leaves behind for the statements below: the chain it
    ran, the vectors it called [self.chisq] on and the values it drew. *)
Record walk_record : Type := mkWalk {
  walk_chain : Z;
  walk_chisq_calls : list vec;
  walk_draws : list draw }.

(** The calling process: the list [self.chains.chains], the row log on
    disk, numpy's generator as the workers inherit it, the number of
    pools created, the walks dispatched and [self.likelihood]. *)
Record session : Type := mkSession {
  chains_chains : list Chain;
  file : list row;
  parent_random : rng;
  pools : nat;
  walks : list walk_record;
  self_likelihood : option likelihood_t }.

(** The process a worker starts in. *)
Definition worker_proc (g : rng) (log : list row) : proc :=
  {| np_random := g; chains_file := log; chisq_calls := []; draws := [] |}.

(** Lines 326-331, [pool.map_async(self.mcmc, self.chains.chains).get()]:
    every chain is walked in a worker that owns a copy of the chain and
    its own generator, and appends to the row log when its loop has
    ended.  The workers are taken in the order of the list; an exception
    in a worker is raised again by [get]. *)
Fixpoint pool_map (fuel : nat) (self : Extractor_MCMC) (cs : list Chain)
    (g : rng) (log : list row) : result (list row * list walk_record) :=
  match cs with
  | [] => Ok (log, [])
  | c :: rest =>
      '(_, s) <- mcmc fuel self c (worker_proc g log) ;;
      '(log', ws) <- pool_map fuel self rest g (chains_file s) ;;
      Ok (log', {| walk_chain := nchain c;
                   walk_chisq_calls := chisq_calls s;
                   walk_draws := draws s |} :: ws)
  end.

(** Lines 323-325: one new [Chain] per chain index. *)
Definition new_chains (self : Extractor_MCMC) (log : list row) : list Chain :=
  map (fun i => Chain_init log (covfile self) i (self_nsteps self))
      (py_range 0 (self_nchains self)).

(** Lines 336-348: the summary is built again from the row log. *)
Definition summarise (o : session) : session :=
  {| chains_chains := chains_chains o; file := file o;
     parent_random := parent_random o; pools := pools o;
     walks := walks o;
     self_likelihood := Some (chains_to_likelihood (file o)) |}.

(** Lines 321-331: the sampling of [run_mcmc], when no interrupt comes. *)
Definition sample (fuel : nat) (self : Extractor_MCMC) (o : session)
  : result session :=
  let complete := check_completness (file o) (self_nchains self) (self_nsteps self) in
  if negb complete then
    let cs := chains_chains o ++ new_chains self (file o) in
    '(log, ws) <- pool_map fuel self cs (parent_random o) (file o) ;;
    Ok {| chains_chains := cs; file := log;
          parent_random := parent_random o; pools := S (pools o);
          walks := walks o ++ ws;
          self_likelihood := self_likelihood o |}
  else Ok o.

(** [Extractor_MCMC.run_mcmc], when no interrupt comes. *)
Definition run_mcmc (fuel : nat) (self : Extractor_MCMC) (o : session)
  : result session :=
  o1 <- sample fuel self o ;;
  Ok (summarise o1).








End Walk.

(** ** What the statements speak of *)

Section Step.

Context {E : External}.

(** The candidate [vec2] that an iteration draws (line 286). *)
Definition step_candidate (w : walker) (c : Chain) (s : proc) : vec :=
  fst (draw_vector (proposal_cov c) (vec1 w) (np_random s)).

(** The value [r] that an iteration draws (line 301). *)
Definition step_uniform (w : walker) (c : Chain) (s : proc) : R :=
  fst (np_random_uniform
         (snd (draw_vector (proposal_cov c) (vec1 w) (np_random s)))).

(** The cost [chisq2] of the candidate (lines 287-294). *)
Definition step_cost (self : Extractor_MCMC) (w : walker) (c : Chain) (s : proc)
  : result float64 :=
  prior2 <- prior (bounds self) (step_candidate w c s) ;;
  Ok (if fgt prior2 (Fin 1e-10) then chisq self (step_candidate w c s)
      else Fin 1e20).

(** Line 310: the key of local step [i]. *)
Definition step_key (c : Chain) (i : Z) : Z := (i + nchain c * nsteps c)%Z.

(** The first local step of the walk of a chain (lines 261-267, 274). *)
Definition first_key (c : Chain) : Z :=
  if (start_key c =? -1)%Z then start_index c else (start_index c + 1)%Z.

(** The attributes of a chain that an iteration leaves alone. *)
Definition chain_header (c : Chain) : Z * Z * vec * Z * Z :=
  (nchain c, nsteps c, start_vec c, start_key c, start_index c).

(** The last row of chain [n] in the log. *)
Definition last_row (log : list row) (n : Z) : option row :=
  hd_error (rev (chain_rows log n)).

(** A vector no longer than the tuples of bounds: [prior] does not index
    past them. *)
Definition vec_fits (self : Extractor_MCMC) (v : vec) : Prop :=
  (length v <= length (fst (bounds self)))%nat /\
  (length v <= length (snd (bounds self)))%nat.

Definition candidate_fits (self : Extractor_MCMC) (w : walker) (c : Chain) (s : proc)
  : Prop :=
  vec_fits self (step_candidate w c s).

(** The proposal keeps the dimension within the bounds. *)
Definition proposals_fit (self : Extractor_MCMC) : Prop :=
  forall (k : cov) (v : vec) (g : rng),
    vec_fits self v -> vec_fits self (fst (draw_vector k v g)).

(** The arrays from which lines 268-269 take a maximum are not empty, and
    [v] has an amplitude. *)
Definition rescale_defined (self : Extractor_MCMC) (v : vec) : Prop :=
  fst (simulation self v) ++ snd (simulation self v) <> [] /\
  spectrum_data self <> [] /\
  v <> [].

(** Lines 268-269 in the words of the specification: the amplitude is
    multiplied by the maximum of the data over the maximum of the
    simulated model, whenever the latter is positive. *)
Definition rescale_by_model (self : Extractor_MCMC) (v : vec) : result vec :=
  m <- np_max (fst (simulation self v)) ;;
  if fgt m (Fin 0) then
    v0 <- getitem v 0 ;;
    d <- np_max (spectrum_data self) ;;
    Ok (fmul v0 (fdiv d m) :: tl v)
  else Ok v.

(** The draws [ds] are taken one after the other from the generator
    [g], which they leave as [g']. *)
Inductive drawn_from : rng -> list draw -> rng -> Prop :=
| drawn_nil (g : rng) : drawn_from g [] g
| drawn_proposal (g : rng) (k : cov) (centre : vec) (ds : list draw) (g' : rng) :
    drawn_from (snd (draw_vector k centre g)) ds g' ->
    drawn_from g (Proposal (fst (draw_vector k centre g)) :: ds) g'
| drawn_uniform (g : rng) (ds : list draw) (g' : rng) :
    drawn_from (snd (np_random_uniform g)) ds g' ->
    drawn_from g (Uniform (fst (np_random_uniform g)) :: ds) g'.

(** The records of process [s'] have the draws [d] more than those of
    [s], taken from the generator that [s] had. *)
Definition draws_threaded (s s' : proc) (d : list draw) : Prop :=
  draws s' = draws s ++ d /\ drawn_from (np_random s) d (np_random s').






(** Process [s] with the records of [b] before its own. *)
Definition rebase (b s : proc) : proc :=
  {| np_random := np_random s;
     chains_file := chains_file b ++ chains_file s;
     chisq_calls := chisq_calls b ++ chisq_calls s;
     draws := draws b ++ draws s |}.

(** A process with generator [g] and empty records. *)
Definition bare (g : rng) : proc :=
  {| np_random := g; chains_file := []; chisq_calls := []; draws := [] |}.

(** A change of the process in an outcome. *)
Definition on_proc {A : Type} (f : proc -> proc) (r : result (A * proc))
  : result (A * proc) :=
  match r with
  | Ok (a, s) => Ok (a, f s)
  | Raise e => Raise e
  | OutOfFuel => OutOfFuel
  end.

End Step.

(** Both costs are the same infinity: their difference is NaN. *)
Definition same_infinity (a b : float64) : bool :=
  match a, b with
  | PInf, PInf | NInf, NInf => true
  | _, _ => false
  end.

(** ** A small configuration *)

(** The cost of a vector is its amplitude. *)
Definition amplitude_cost (v : vec) : float64 :=
  match v with
  | a :: _ => a
  | [] => NaN
  end.

(** A proposal that moves the amplitude by [shift] and a generator that
    counts its draws and always gives [r = 1/2]. *)
Definition toy_draw (shift : R) (centre : vec) : vec :=
  match centre with
  | a :: rest => fadd a (Fin shift) :: rest
  | [] => []
  end.

Definition toy_external (shift : R) : External := {|
  rng := nat;
  cov := unit;
  likelihood_t := nat;
  np_random_seed := Z.to_nat;
  np_random_uniform := fun g => (1 / 2, S g);
  draw_vector := fun _ centre g => (toy_draw shift centre, S g);
  update_proposal_cov := fun k _ => k;
  chains_to_likelihood := @length row |}.

(** Two chains of three steps on the bounds of [Extractor], with a
    simulated model of maximum 1 under data of maximum 2, and the cost
    callable [cost]. *)
Definition toy_self (shift : R) (cost : vec -> float64)
  : @Extractor_MCMC (toy_external shift) := {|
  bounds := Extractor_bounds;
  spectrum_data := [Fin 1; Fin 2];
  spectrum_lambdas_size := 2;
  exploration_time := 1;
  self_nchains := 2;
  self_nsteps := 3;
  covfile := (Extractor_p, tt : @cov (toy_external shift));
  simulation := fun _ => ([Fin 1; Fin 0.5], [Fin 0.1; Fin 0.1]);
  chisq := cost |}.

(** The same with a simulated model of maximum 1 whose error reaches 4. *)
Definition toy_self_err : @Extractor_MCMC (toy_external 1) := {|
  bounds := Extractor_bounds;
  spectrum_data := [Fin 1; Fin 2];
  spectrum_lambdas_size := 2;
  exploration_time := 1;
  self_nchains := 2;
  self_nsteps := 3;
  covfile := (Extractor_p, tt : @cov (toy_external 1));
  simulation := fun _ => ([Fin 1; Fin 0.5], [Fin 4; Fin 0.1]);
  chisq := amplitude_cost |}.

(** Chain [n] of three steps without rows. *)
Definition toy_chain (shift : R) (n : Z) : @Chain (toy_external shift) := {|
  nchain := n; nsteps := 3; start_vec := Extractor_p;
  start_key := -1; start_index := 0;
  proposal_cov := tt : @cov (toy_external shift); rows := [] |}.

Definition toy_proc (shift : R) (g : nat) : @proc (toy_external shift) := {|
  np_random := g : @rng (toy_external shift);
  chains_file := []; chisq_calls := []; draws := [] |}.

(** A row log with one row, of chain 0 at [Extractor_p]. *)
Definition toy_log : list row :=
  [(0%Z, {| row_chain := 0; row_index := 0; row_chisq := Fin 1;
            row_params := Extractor_p |})].

(** A row log in which chain 0 has its three rows and chain 1 has two. *)
Definition toy_row (n i : Z) : row :=
  ((i + n * 3)%Z, {| row_chain := n; row_index := i; row_chisq := Fin 1;
                     row_params := Extractor_p |}).

Definition toy_log2 : list row :=
  [toy_row 0 0; toy_row 1 0; toy_row 0 1; toy_row 1 1; toy_row 0 2].

(** The calling process before its first run. *)
Definition toy_session : @session (toy_external 1) := {|
  chains_chains := [];
  file := toy_log2;
  parent_random := 0%nat : @rng (toy_external 1);
  pools := 0;
  walks := [];
  self_likelihood := None |}.

(** A walker at [Extractor_p] with current cost [cost]. *)
Definition toy_walker (cost : float64) : walker := {|
  vec1 := Extractor_p; chisq1 := cost; L1 := np_exp (fmul (Fin (-0.5)) cost) |}.

(** ** What the specification compares [prior] with *)

(** Component [par] lies outside [lo, hi] as line 207 tests it. *)
Definition outside (par lo hi : float64) : bool := flt par lo || fgt par hi.

(** No component of [p] is outside its bounds. *)
Definition none_outside (b : bounds_t) (p : vec) : bool :=
  forallb (fun '(par, (lo, hi)) => negb (outside par lo hi))
          (combine p (combine (fst b) (snd b))).

(** Every component satisfies [bounds_low[i] <= p[i] <= bounds_high[i]]. *)
Definition within_bounds (b : bounds_t) (p : vec) : bool :=
  forallb (fun '(par, (lo, hi)) => fle lo par && fle par hi)
          (combine p (combine (fst b) (snd b))).

Definition has_nan (p : list float64) : bool := existsb is_nan p.

(** * The other methods of [Extractor] and [Extractor_MCMC] *)

(** ** More of numpy *)

Definition Reqb (x y : R) : bool := if Req_dec_T x y then true else false.

(** [a == b]: NaN equals nothing. *)
Definition feq (a b : float64) : bool :=
  match a, b with
  | Fin x, Fin y => Reqb x y
  | PInf, PInf | NInf, NInf => true
  | _, _ => false
  end.

(** [np.isclose(a, b)] with its default tolerances:
    [abs(a - b) <= 1e-8 + 1e-5 * abs(b)] on finite values, equality on
    the others. *)
Definition np_isclose (a b : float64) : bool :=
  match a, b with
  | Fin x, Fin y => Rleb (Rabs (x - y)) (1e-8 + 1e-5 * Rabs y)
  | PInf, PInf | NInf, NInf => true
  | _, _ => false
  end.

(** [a ** 2] *)
Definition fsqr (a : float64) : float64 := fmul a a.

(** [np.sum]: 0.0 on an empty array. *)
Definition np_sum (a : list float64) : float64 := fold_left fadd a (Fin 0).

(** An operation on two one-dimensional arrays: the shapes must be equal,
    or one of them is 1 and that element is used throughout; other shapes
    raise ValueError. *)
Definition broadcast2 (f : float64 -> float64 -> float64) (a b : list float64)
  : result (list float64) :=
  if (length a =? length b)%nat
  then Ok (map (fun xy => f (fst xy) (snd xy)) (combine a b))
  else match a, b with
       | [x], _ => Ok (map (f x) b)
       | _, [y] => Ok (map (fun x => f x y) a)
       | _, _ => Raise ValueError
       end.

(** ** [Extractor.__init__] and [Extractor.get_truth] *)

(** Lines 51-52: [if 0. in self.spectrum.err: self.spectrum.err =
    np.ones_like(self.spectrum.err)]. *)
Definition Extractor_fix_err (err : list float64) : list float64 :=
  if existsb (feq (Fin 0)) err then map (fun _ => Fin 1) err else err.

Section Truth.

(** The values of a header. *)
Variable V : Type.

(** [self.spectrum.header]: keywords and their values. *)
Definition header_t : Type := list (String.string * V).

(** [k in header.keys()] *)
Definition has_key (k : String.string) (h : header_t) : bool :=
  existsb (fun kv => String.eqb k (fst kv)) h.

(** [header[k]] for a keyword that is there. *)
Definition header_get (k : String.string) (h : header_t) : option V :=
  match find (fun kv => String.eqb k (fst kv)) h with
  | Some kv => Some (snd kv)
  | None => None
  end.

(** What [get_truth] does: it sets [self.truth], to [None] or to a tuple
    whose last entries are [None], or it reads a local variable that was
    never assigned. *)
Inductive truth_outcome : Type :=
| TruthSet (truth : option (list (option V)))
| UnboundLocalError (name : String.string).

(** A local variable that is assigned only under [if k in header.keys()]. *)
Definition assigned_if (k : String.string) (h : header_t) : option V :=
  if has_key k h then header_get k h else None.

(** Reading a local variable. *)
Definition load (name : String.string) (local : option V)
    (k : V -> truth_outcome) : truth_outcome :=
  match local with
  | Some v => k v
  | None => UnboundLocalError name
  end.

(** [Extractor.get_truth] *)
Definition get_truth (h : header_t) : truth_outcome :=
  if has_key "A1"%string h then
    let A1_truth := header_get "A1"%string h in
    let A2_truth := assigned_if "A2"%string h in
    let ozone_truth := assigned_if "OZONE"%string h in
    let pwv_truth := assigned_if "PWV"%string h in
    let aerosols_truth := assigned_if "VAOD"%string h in
    let reso_truth := assigned_if "RESO"%string h in
    load "A1_truth"%string A1_truth (fun a1 =>
    load "A2_truth"%string A2_truth (fun a2 =>
    load "ozone_truth"%string ozone_truth (fun oz =>
    load "pwv_truth"%string pwv_truth (fun pw =>
    load "aerosols_truth"%string aerosols_truth (fun ae =>
    load "reso_truth"%string reso_truth (fun re =>
    TruthSet (Some [Some a1; Some a2; Some oz; Some pw; Some ae; Some re;
                    None; None])))))))
  else TruthSet None.

End Truth.

Arguments TruthSet {V} truth.
Arguments UnboundLocalError {V} name.

(** ** The densities of [Extractor_MCMC] *)

(** [Extractor_MCMC.lnprior]: the loop of [prior], with other values. *)
Definition lnprior (bounds : bounds_t) (p : vec) : result float64 :=
  in_bounds <- prior_loop bounds 0 p ;;
  if in_bounds then Ok (Fin 0) else Ok (Fin (-1e20)).

(** The outcome with a function applied to its value. *)
Definition result_map {A B : Type} (f : A -> B) (r : result A) : result B :=
  match r with
  | Ok a => Ok (f a)
  | Raise e => Raise e
  | OutOfFuel => OutOfFuel
  end.

Section Densities.

Context {E : External}.

(** [Extractor.chisq] (lines 98-103), on the arrays that [simulation]
    returns, the data and the array [self.spectrum.err]. *)
Definition Extractor_chisq (self : Extractor_MCMC) (spectrum_err : list float64)
    (p : vec) : result float64 :=
  let (model, err) := simulation self p in
  diff <- broadcast2 fsub model (spectrum_data self) ;;
  den <- broadcast2 fadd (map fsqr err) (map fsqr spectrum_err) ;;
  terms <- broadcast2 fdiv (map fsqr diff) den ;;
  Ok (np_sum terms).

(** The denominators of [Extractor.chisq]. *)
Definition chisq_denominators (self : Extractor_MCMC) (spectrum_err : list float64)
    (p : vec) : result (list float64) :=
  broadcast2 fadd (map fsqr (snd (simulation self p))) (map fsqr spectrum_err).

(** [Extractor_MCMC.lnlike] *)
Definition lnlike (self : Extractor_MCMC) (p : vec) (s : proc) : float64 * proc :=
  let (c, s') := call_chisq self p s in
  (fmul (Fin (-0.5)) c, s').

(** [Extractor_MCMC.lnprob] *)
Definition lnprob (self : Extractor_MCMC) (p : vec) (s : proc)
  : result (float64 * proc) :=
  lp <- lnprior (bounds self) p ;;
  if negb (isfinite lp) then Ok (Fin (-1e20), s)
  else
    let (ll, s') := lnlike self p s in
    Ok (fadd lp ll, s').

(** [Extractor_MCMC.likelihood] *)
Definition likelihood (self : Extractor_MCMC) (p : vec) (s : proc)
  : float64 * proc :=
  let (c, s') := call_chisq self p s in
  (np_exp (fmul (Fin (-0.5)) c), s').

(** [Extractor_MCMC.posterior] *)
Definition posterior (self : Extractor_MCMC) (p : vec) (s : proc)
  : result (float64 * proc) :=
  prior0 <- prior (bounds self) p ;;
  if np_isclose prior0 (Fin 0) then Ok (Fin 0, s)
  else
    let (l, s') := likelihood self p s in
    Ok (fmul prior0 l, s').

(** The cost stays clear of the sentinel on the vectors within the
    bounds: it is NaN or at most [1e20 - 2150]. *)
Definition below_sentinel (a : float64) : bool :=
  fle a (Fin (1e20 - 2150)) || is_nan a.

End Densities.

(** ** Small configurations for the other methods *)

(** A configuration whose simulated model is the data. *)
Definition toy_self_fit : @Extractor_MCMC (toy_external 1) := {|
  bounds := Extractor_bounds;
  spectrum_data := [Fin 1; Fin 2];
  spectrum_lambdas_size := 2;
  exploration_time := 1;
  self_nchains := 2;
  self_nsteps := 3;
  covfile := (Extractor_p, tt : @cov (toy_external 1));
  simulation := fun _ => ([Fin 1; Fin 2], [Fin 0.1; Fin 0.1]);
  chisq := fun _ => Fin 0 |}.

(** A header of a simulated spectrum, and one without the resolution. *)
Definition toy_header : header_t nat :=
  [("AIRMASS"%string, 1%nat); ("A1"%string, 2%nat); ("A2"%string, 3%nat);
   ("OZONE"%string, 4%nat); ("PWV"%string, 5%nat); ("VAOD"%string, 6%nat);
   ("RESO"%string, 7%nat)].

Definition toy_header_short : header_t nat :=
  [("A1"%string, 2%nat); ("A2"%string, 3%nat); ("OZONE"%string, 4%nat);
   ("PWV"%string, 5%nat); ("VAOD"%string, 6%nat)].

(** A configuration whose data are all negative. *)
Definition toy_self_negative : @Extractor_MCMC (toy_external 1) := {|
  bounds := Extractor_bounds;
  spectrum_data := [Fin (-1); Fin (-2)];
  spectrum_lambdas_size := 2;
  exploration_time := 1;
  self_nchains := 2;
  self_nsteps := 3;
  covfile := (Extractor_p, tt : @cov (toy_external 1));
  simulation := fun _ => ([Fin 1; Fin 0.5], [Fin 0.1; Fin 0.1]);
  chisq := fun _ => Fin 1 |}.

(** A chain of two steps that has its first row. *)
Definition toy_chain_two : @Chain (toy_external 1) := {|
  nchain := 0; nsteps := 2; start_vec := Extractor_p;
  start_key := 0; start_index := 0;
  proposal_cov := tt : @cov (toy_external 1); rows := [] |}.

(** The keywords that [get_truth] reads under [if 'A1' in ...]. *)
Definition truth_keys : list String.string :=
  ["A2"%string; "OZONE"%string; "PWV"%string; "VAOD"%string; "RESO"%string].

(** The local variables that they are assigned to. *)
Definition truth_locals : list String.string :=
  ["A2_truth"%string; "ozone_truth"%string; "pwv_truth"%string;
   "aerosols_truth"%string; "reso_truth"%string].

(** * Properties *)

(** ** Comparisons *)

Lemma Rltb_true x y : Rltb x y = true <-> x < y.
Proof. unfold Rltb; destruct (Rlt_dec x y); split; intros; try easy. Qed.

Lemma Rltb_false x y : Rltb x y = false <-> y <= x.
Proof.
  unfold Rltb; destruct (Rlt_dec x y); split; intros; try easy; lra.
Qed.

Lemma Rleb_true x y : Rleb x y = true <-> x <= y.
Proof. unfold Rleb; destruct (Rle_dec x y); split; intros; try easy. Qed.

Lemma Rleb_false x y : Rleb x y = false <-> y < x.
Proof.
  unfold Rleb; destruct (Rle_dec x y); split; intros; try easy; lra.
Qed.

(** Decide the comparisons of real constants that a goal contains. *)
Ltac rcmp :=
  repeat match goal with
  | |- context [Rltb ?a ?b] =>
      first [ replace (Rltb a b) with true
                by (symmetry; apply Rltb_true; lra)
            | replace (Rltb a b) with false
                by (symmetry; apply Rltb_false; lra) ]
  | |- context [Rleb ?a ?b] =>
      first [ replace (Rleb a b) with true
                by (symmetry; apply Rleb_true; lra)
            | replace (Rleb a b) with false
                by (symmetry; apply Rleb_false; lra) ]
  end.

(** Evaluate float operations on real constants. *)
Ltac fcompute :=
  repeat (progress (simpl; unfold fmax2, fgt, flt, fle, scale_inf; simpl; rcmp)).

(** Without NaN, [<=] is the negation of [>]. *)
Lemma fle_not_fgt a b :
  is_nan a = false -> is_nan b = false -> fle a b = negb (fgt a b).
Proof.
  destruct a as [x| | |], b as [y| | |]; simpl; try easy.
  intros _ _. unfold Rleb, Rltb.
  destruct (Rle_dec x y), (Rlt_dec y x); simpl; try reflexivity; lra.
Qed.

(** ** [prior] *)

Lemma skipn_nth_error {A} (l : list A) n x :
  nth_error l n = Some x -> skipn n l = x :: skipn (S n) l.
Proof.
  revert l; induction n as [|n IH]; intros [|a l] H; simpl in *; try easy.
  - now injection H as ->.
  - now apply IH.
Qed.

Lemma getitem_lt {A} (l : list A) n :
  (n < length l)%nat -> exists x, getitem l n = Ok x /\ nth_error l n = Some x.
Proof.
  intros H. unfold getitem. destruct (nth_error l n) eqn:Hn.
  - now exists a.
  - apply nth_error_None in Hn. lia.
Qed.

(** The loop scans [p] along both tuples of bounds from [npar] on. *)
Lemma prior_loop_scan b npar p :
  (npar + length p <= length (fst b))%nat ->
  (npar + length p <= length (snd b))%nat ->
  prior_loop b npar p
  = Ok (forallb (fun '(par, (lo, hi)) => negb (outside par lo hi))
          (combine p (combine (skipn npar (fst b)) (skipn npar (snd b))))).
Proof.
  revert npar; induction p as [|par rest IH]; intros npar Hlo Hhi; simpl in *.
  - reflexivity.
  - destruct (getitem_lt (fst b) npar) as (lo & Glo & Nlo); [lia|].
    destruct (getitem_lt (snd b) npar) as (hi & Ghi & Nhi); [lia|].
    rewrite Glo; simpl.
    rewrite (skipn_nth_error _ _ _ Nlo), (skipn_nth_error _ _ _ Nhi); simpl.
    unfold outside.
    destruct (flt par lo); simpl; [reflexivity|].
    rewrite Ghi; simpl.
    destruct (fgt par hi); simpl; [reflexivity|].
    apply IH; lia.
Qed.

Lemma prior_none_outside b p :
  (length p <= length (fst b))%nat ->
  (length p <= length (snd b))%nat ->
  prior b p = Ok (if none_outside b p then Fin 1 else Fin 0).
Proof.
  intros Hlo Hhi. unfold prior, none_outside.
  rewrite prior_loop_scan by (simpl; lia). simpl.
  now destruct (forallb _ _).
Qed.

Lemma has_nan_cons a l : has_nan (a :: l) = false -> is_nan a = false /\ has_nan l = false.
Proof. unfold has_nan; simpl. now intros H%orb_false_elim. Qed.

(** Without NaN the negated strict tests of line 207 are the two
    inclusive comparisons. *)
Lemma none_outside_within p : forall lo hi,
  has_nan p = false -> has_nan lo = false -> has_nan hi = false ->
  none_outside (lo, hi) p = within_bounds (lo, hi) p.
Proof.
  unfold none_outside, within_bounds; simpl.
  induction p as [|par p IH]; intros [|l lo] [|h hi] Hp Hl Hh; simpl; try reflexivity.
  apply has_nan_cons in Hp as [Np Hp].
  apply has_nan_cons in Hl as [Nl Hl].
  apply has_nan_cons in Hh as [Nh Hh].
  rewrite (IH lo hi Hp Hl Hh). f_equal.
  unfold outside. rewrite negb_orb.
  rewrite (fle_not_fgt l par Nl Np), (fle_not_fgt par h Np Nh).
  reflexivity.
Qed.

(** C9, as the code has it: on a vector no longer than the bounds
    [prior] returns exactly 1.0 or exactly 0.0; it returns 1.0 precisely
    when no component is below its lower or above its upper bound; when
    neither the vector nor the bounds hold a NaN, that is precisely when
    every component satisfies [bounds_low[i] <= p[i] <= bounds_high[i]],
    so that a component equal to a bound is feasible. *)
Theorem prior_is_indicator (b : bounds_t) (p : vec) :
  (length p <= length (fst b))%nat ->
  (length p <= length (snd b))%nat ->
  (prior b p = Ok (Fin 1) \/ prior b p = Ok (Fin 0)) /\
  (prior b p = Ok (Fin 1) <-> none_outside b p = true) /\
  (has_nan p = false -> has_nan (fst b) = false -> has_nan (snd b) = false ->
   (prior b p = Ok (Fin 1) <-> within_bounds b p = true)).
Proof.
  intros Hlo Hhi. rewrite (prior_none_outside b p Hlo Hhi).
  assert (Hiff : Ok (if none_outside b p then Fin 1 else Fin 0) = Ok (Fin 1)
                 <-> none_outside b p = true).
  { destruct (none_outside b p); split; intros H; try easy.
    injection H as H. lra. }
  split; [|split].
  - destruct (none_outside b p); auto.
  - exact Hiff.
  - intros Np Nl Nh. destruct b as [lo hi]; simpl in *.
    rewrite <- (none_outside_within p lo hi Np Nl Nh). exact Hiff.
Qed.

(** A vector on the bounds: the amplitude at its lower bound 0 and the
    resolution at its upper bound 100. *)
Definition p_on_bounds : vec :=
  [Fin 0; Fin 0.1; Fin 300; Fin 3; Fin 0.03; Fin 100; Fin 1e-3].

Lemma prior_is_indicator_witness :
  (prior Extractor_bounds p_on_bounds = Ok (Fin 1)
   \/ prior Extractor_bounds p_on_bounds = Ok (Fin 0)) /\
  (prior Extractor_bounds p_on_bounds = Ok (Fin 1)
   <-> none_outside Extractor_bounds p_on_bounds = true) /\
  (prior Extractor_bounds p_on_bounds = Ok (Fin 1)
   <-> within_bounds Extractor_bounds p_on_bounds = true).
Proof.
  destruct (prior_is_indicator Extractor_bounds p_on_bounds) as (H1 & H2 & H3);
    [simpl; lia | simpl; lia |].
  split; [exact H1 | split; [exact H2 | apply H3; reflexivity]].
Defined.

(** A vector whose amplitude is NaN. *)
Definition p_nan : vec :=
  [NaN; Fin 0.1; Fin 300; Fin 3; Fin 0.03; Fin 10; Fin 1e-3].

(** C9 as stated fails on a NaN component: [prior] returns 1.0 although
    [0 <= NaN] does not hold. *)
Lemma prior_nan_counterexample :
  prior Extractor_bounds p_nan = Ok (Fin 1) /\
  within_bounds Extractor_bounds p_nan = false.
Proof.
  split.
  - unfold prior, p_nan, Extractor_bounds; simpl.
    unfold fgt, flt; simpl. rcmp. reflexivity.
  - reflexivity.
Qed.

(** ** The exponential at the limits of the format *)

Lemma f64_underflow_lt_1 : f64_underflow < 1.
Proof.
  unfold f64_underflow. rewrite <- Rinv_1.
  apply Rinv_lt_contravar.
  - rewrite Rmult_1_l. apply pow_lt; lra.
  - apply Rlt_pow_R1; [lra | lia].
Qed.

Lemma f64_overflow_gt_1 : 1 < f64_overflow.
Proof. unfold f64_overflow. apply Rlt_pow_R1; [lra | lia]. Qed.

Lemma exp_ge_1 x : 0 <= x -> 1 <= exp x.
Proof.
  intros [H|<-]; [|rewrite exp_0; lra].
  left. rewrite <- exp_0. now apply exp_increasing.
Qed.

(** The exponential of a finite argument that is not negative is at
    least 1, or has overflowed. *)
Lemma np_exp_nonneg x :
  0 <= x -> np_exp (Fin x) = PInf \/ exists y, np_exp (Fin x) = Fin y /\ 1 <= y.
Proof.
  intros Hx. pose proof (exp_ge_1 x Hx) as H1.
  pose proof f64_underflow_lt_1 as Hu.
  unfold np_exp.
  replace (Rleb (exp x) f64_underflow) with false
    by (symmetry; apply Rleb_false; lra).
  destruct (Rleb f64_overflow (exp x)); [now left|].
  right. now exists (exp x).
Qed.

(** ** The acceptance test *)

(** A candidate that costs no more than the current state passes the
    test, unless both costs are the same infinity. *)
Lemma metropolis_test_better c1 c2 u :
  0 <= u < 1 -> fle c2 c1 = true -> same_infinity c1 c2 = false ->
  metropolis_test c1 c2 u = true.
Proof.
  intros Hu Hle Hinf. unfold metropolis_test, fgt, fsub.
  destruct c1 as [x1| | |], c2 as [x2| | |]; simpl in *; try discriminate.
  - apply Rleb_true in Hle.
    destruct (np_exp_nonneg (-0.5 * (x2 + - x1))) as [->|(y & -> & Hy)];
      [lra | reflexivity |].
    simpl. apply Rltb_true. lra.
  - unfold scale_inf. rcmp. reflexivity.
  - unfold scale_inf. rcmp. reflexivity.
  - unfold scale_inf. rcmp. reflexivity.
Qed.

(** Both costs infinite and equal: the difference is NaN and the test
    fails whatever was drawn. *)
Lemma metropolis_test_same_infinity c1 c2 u :
  same_infinity c1 c2 = true -> metropolis_test c1 c2 u = false.
Proof.
  destruct c1, c2; simpl; try discriminate; reflexivity.
Qed.

(** ** One iteration *)

Section StepFacts.

Context {E : External}.

Lemma fgt_one_threshold : fgt (Fin 1) (Fin 1e-10) = true.
Proof. unfold fgt; simpl; rcmp; reflexivity. Qed.

Lemma fgt_zero_threshold : fgt (Fin 0) (Fin 1e-10) = false.
Proof. unfold fgt; simpl; rcmp; reflexivity. Qed.

(** What an iteration whose candidate fits the bounds does: it returns,
    having drawn the candidate and [r], called [self.chisq] on a feasible
    candidate only, taken the decision of line 303 and put one row into
    the buffer. *)
Lemma mcmc_step_run (self : Extractor_MCMC) (i : Z) (w : walker) (c : Chain) (s : proc) :
  candidate_fits self w c s ->
  let vec2 := step_candidate w c s in
  let r := step_uniform w c s in
  exists feasible : bool,
    prior (bounds self) vec2 = Ok (Fin (if feasible then 1 else 0)) /\
    step_cost self w c s = Ok (if feasible then chisq self vec2 else Fin 1e20) /\
    let chisq2 := if feasible then chisq self vec2 else Fin 1e20 in
    let w' := if metropolis_test (chisq1 w) chisq2 r
              then {| vec1 := vec2; chisq1 := chisq2;
                      L1 := np_exp (fmul (Fin (-0.5)) chisq2) |}
              else w in
    exists c' s',
      mcmc_step self i (w, c, s) = Ok (w', c', s') /\
      rows c' = rows c ++ [((i + nchain c * nsteps c)%Z,
                            make_dictline c i (chisq1 w') (vec1 w'))] /\
      nchain c' = nchain c /\ nsteps c' = nsteps c /\
      start_index c' = start_index c /\ start_key c' = start_key c /\
      start_vec c' = start_vec c /\
      chains_file s' = chains_file s /\
      chisq_calls s' = chisq_calls s ++ (if feasible then [vec2] else []) /\
      draws s' = draws s ++ [Proposal vec2; Uniform r].
Proof.
  intros [Hlo Hhi] vec2 r. subst vec2 r.
  unfold step_cost, mcmc_step, call_draw_vector, step_uniform in *.
  unfold step_candidate in *.
  destruct (draw_vector (proposal_cov c) (vec1 w) (np_random s)) as [vec2 g1] eqn:Hd.
  cbn [fst snd] in *.
  rewrite (prior_none_outside _ _ Hlo Hhi).
  destruct (none_outside (bounds self) vec2);
    [exists true | exists false]; (split; [reflexivity|]);
    cbn [bind]; unfold candidate_cost, call_chisq, call_uniform;
    rewrite ?fgt_one_threshold, ?fgt_zero_threshold; (split; [reflexivity|]);
    cbn [np_random chains_file chisq_calls draws];
    destruct (np_random_uniform g1) as [r g2] eqn:Hu; cbn [fst snd];
    unfold decide;
    match goal with
    | |- context [metropolis_test ?a ?b ?u] => destruct (metropolis_test a b u)
    end;
    destruct (i >? exploration_time self)%Z;
    eexists; eexists; (split; [reflexivity|]);
    cbn [rows nchain nsteps start_index start_key start_vec set_proposal_cov
         newrow chains_file chisq_calls draws vec1 chisq1];
    rewrite <- ?app_assoc, ?app_nil_r; repeat split; reflexivity.
Qed.

End StepFacts.

(** ** The loop *)

Section Loop.

Context {E : External}.

(** An iteration that returns has put one row into the buffer, for the
    state it returns, and has left the row log alone. *)
Lemma mcmc_step_inv (self : Extractor_MCMC) i w c s w' c' s' :
  mcmc_step self i (w, c, s) = Ok (w', c', s') ->
  rows c' = rows c ++ [(step_key c i, make_dictline c i (chisq1 w') (vec1 w'))] /\
  chain_header c' = chain_header c /\
  chains_file s' = chains_file s /\
  (vec1 w' = vec1 w \/ vec1 w' = step_candidate w c s).
Proof.
  unfold mcmc_step, call_draw_vector, step_candidate, step_key.
  destruct (draw_vector (proposal_cov c) (vec1 w) (np_random s)) as [vec2 g1].
  cbn [fst].
  destruct (prior (bounds self) vec2) as [prior2| |]; cbn [bind]; try discriminate.
  unfold candidate_cost, call_chisq, call_uniform.
  destruct (fgt prior2 (Fin 1e-10)); cbn [np_random];
    destruct (np_random_uniform g1) as [r g2];
    unfold decide;
    match goal with
    | |- context [metropolis_test ?a ?b ?u] => destruct (metropolis_test a b u)
    end;
    destruct (i >? exploration_time self)%Z;
    intros H; injection H as <- <- <-;
    cbn [rows nchain nsteps start_index start_key start_vec set_proposal_cov
         newrow chains_file chisq_calls draws vec1 chisq1 chain_header fst snd];
    auto.
Qed.

(** A loop that returns has put one row per key into the buffer, in the
    order of the keys, and has left the row log alone. *)
Lemma mcmc_loop_inv (self : Extractor_MCMC) keys : forall w c s w' c' s',
  mcmc_loop self keys (w, c, s) = Ok (w', c', s') ->
  exists new,
    rows c' = rows c ++ new /\
    map fst new = map (step_key c) keys /\
    map (fun r => row_index (snd r)) new = keys /\
    Forall (fun r => row_chain (snd r) = nchain c) new /\
    chain_header c' = chain_header c /\
    chains_file s' = chains_file s.
Proof.
  induction keys as [|i keys IH]; intros w c s w' c' s' H; cbn [mcmc_loop] in H.
  - injection H as <- <- <-. exists []. rewrite app_nil_r. now repeat split.
  - destruct (mcmc_step self i (w, c, s)) as [[[w1 c1] s1]| |] eqn:Hs;
      cbn [bind] in H; try discriminate.
    apply mcmc_step_inv in Hs as (Hr1 & Hh1 & Hf1 & _).
    apply IH in H as (new & Hr & Hk & Hi & Hc & Hh & Hf).
    assert (Hn : nchain c1 = nchain c /\ nsteps c1 = nsteps c)
      by (unfold chain_header in Hh1; now injection Hh1).
    destruct Hn as [Hn Ht].
    exists ((step_key c i, make_dictline c i (chisq1 w1) (vec1 w1)) :: new).
    rewrite Hr, Hr1, <- app_assoc. simpl.
    split; [reflexivity|].
    split; [f_equal; rewrite Hk; apply map_ext; intros; unfold step_key; now rewrite Hn, Ht|].
    split; [now f_equal|].
    split; [constructor; [reflexivity | now rewrite <- Hn]|].
    split; [now rewrite Hh | now rewrite Hf].
Qed.

(** The loop returns when every proposal fits the bounds. *)
Lemma mcmc_loop_total (self : Extractor_MCMC) keys :
  proposals_fit self ->
  forall w c s, vec_fits self (vec1 w) ->
  exists st', mcmc_loop self keys (w, c, s) = Ok st'.
Proof.
  intros Hfit. induction keys as [|i keys IH]; intros w c s Hw; cbn [mcmc_loop].
  - now eexists.
  - assert (Hc : candidate_fits self w c s) by (apply Hfit, Hw).
    destruct (mcmc_step_run self i w c s Hc)
      as (feasible & _ & _ & c' & s' & Hs & _).
    rewrite Hs; cbn [bind]. apply IH.
    destruct (metropolis_test _ _ _); [exact Hc | exact Hw].
Qed.

End Loop.

(** ** The small configuration *)

Lemma toy_prior_inside :
  prior Extractor_bounds (toy_draw 1 Extractor_p) = Ok (Fin 1).
Proof.
  unfold prior, toy_draw, Extractor_p, Extractor_bounds; simpl.
  unfold fgt, flt; simpl. rcmp. reflexivity.
Qed.

Lemma toy_prior_outside :
  prior Extractor_bounds (toy_draw (-2) Extractor_p) = Ok (Fin 0).
Proof.
  unfold prior, toy_draw, Extractor_p, Extractor_bounds; simpl.
  unfold fgt, flt; simpl. rcmp. reflexivity.
Qed.

Lemma toy_candidate_fits shift cost c1 n g :
  @candidate_fits (toy_external shift) (toy_self shift cost)
     (toy_walker c1) (toy_chain shift n) (toy_proc shift g).
Proof. split; simpl; lia. Qed.

(** ** C1: the acceptance rule *)

Section Acceptance.

Context {E : External}.

(** C1, as the code has it: an iteration accepts its candidate if and
    only if [np.exp(-0.5 * (c2 - c1)) > u] for the current cost [c1], the
    candidate's cost [c2] and the value [u] it drew; for [u] in [0, 1), a
    candidate with [c2 <= c1] is accepted unless [c1] and [c2] are the
    same infinity. *)
Theorem metropolis_acceptance (self : Extractor_MCMC) (i : Z)
    (w : walker) (c : Chain) (s : proc) :
  candidate_fits self w c s ->
  exists chisq2 w' c' s',
    step_cost self w c s = Ok chisq2 /\
    mcmc_step self i (w, c, s) = Ok (w', c', s') /\
    let u := step_uniform w c s in
    let passed := fgt (np_exp (fmul (Fin (-0.5)) (fsub chisq2 (chisq1 w)))) (Fin u) in
    (passed = true ->
       vec1 w' = step_candidate w c s /\ chisq1 w' = chisq2) /\
    (passed = false -> w' = w) /\
    (0 <= u < 1 -> fle chisq2 (chisq1 w) = true ->
     same_infinity (chisq1 w) chisq2 = false ->
       passed = true).
Proof.
  intros Hfits.
  destruct (mcmc_step_run self i w c s Hfits)
    as (feasible & _ & Hcost & c' & s' & Hstep & _).
  eexists; eexists; exists c', s'.
  split; [exact Hcost|]. split; [exact Hstep|].
  cbv zeta. unfold metropolis_test.
  destruct (fgt _ _) eqn:Ht; cbn [vec1 chisq1].
  - split; [intros _; split; reflexivity|].
    split; [discriminate | reflexivity].
  - split; [discriminate|]. split; [reflexivity|].
    intros Hu Hle Hinf. rewrite <- Ht. now apply metropolis_test_better.
Qed.

End Acceptance.

Lemma metropolis_acceptance_witness :
  let self := toy_self 1 (fun _ => Fin 1) in
  let w := toy_walker (Fin 1) in
  let c := toy_chain 1 0 in
  let s := toy_proc 1 0 in
  exists w' c' s',
    @step_cost (toy_external 1) self w c s = Ok (Fin 1) /\
    @mcmc_step (toy_external 1) self 0 (w, c, s) = Ok (w', c', s') /\
    0 <= @step_uniform (toy_external 1) w c s < 1 /\
    fle (Fin 1) (chisq1 w) = true /\
    vec1 w' = toy_draw 1 Extractor_p /\ chisq1 w' = Fin 1.
Proof.
  intros self w c s.
  destruct (@metropolis_acceptance (toy_external 1) self 0 w c s
              (toy_candidate_fits 1 _ _ 0 0%nat))
    as (chisq2 & w' & c' & s' & Hcost & Hstep & Hyes & _ & Hbetter).
  assert (Hc : @step_cost (toy_external 1) self w c s = Ok (Fin 1)).
  { unfold step_cost.
    change (step_candidate w c s) with (toy_draw 1 Extractor_p).
    change (bounds self) with Extractor_bounds.
    rewrite toy_prior_inside. cbn [bind].
    rewrite fgt_one_threshold. reflexivity. }
  rewrite Hc in Hcost. injection Hcost as <-.
  assert (Hu : 0 <= step_uniform w c s < 1)
    by (change (step_uniform w c s) with (1 / 2); lra).
  assert (Hle : fle (Fin 1) (chisq1 w) = true)
    by (change (chisq1 w) with (Fin 1); simpl; apply Rleb_true; lra).
  exists w', c', s'.
  repeat (split; [assumption|]).
  exact (Hyes (Hbetter Hu Hle eq_refl)).
Defined.

(** C1 as stated fails when both costs are [+inf]: the candidate costs no
    more than the current state and [u = 1/2], yet the walk stays where
    it is. *)
Lemma metropolis_acceptance_counterexample :
  let self := toy_self 1 (fun _ => PInf) in
  let w := toy_walker PInf in
  let c := toy_chain 1 0 in
  let s := toy_proc 1 0 in
  @step_cost (toy_external 1) self w c s = Ok PInf /\
  fle PInf (chisq1 w) = true /\
  0 <= @step_uniform (toy_external 1) w c s < 1 /\
  @step_candidate (toy_external 1) w c s <> vec1 w /\
  exists c' s', @mcmc_step (toy_external 1) self 0 (w, c, s) = Ok (w, c', s').
Proof.
  intros self w c s.
  destruct (@mcmc_step_run (toy_external 1) self 0 w c s
              (toy_candidate_fits 1 _ _ 0 0%nat))
    as (feasible & Hp & Hcost & c' & s' & Hstep & _).
  change (step_candidate w c s) with (toy_draw 1 Extractor_p) in *.
  change (bounds self) with Extractor_bounds in Hp.
  rewrite toy_prior_inside in Hp.
  assert (feasible = true) as -> by (destruct feasible; [reflexivity | injection Hp; lra]).
  split; [exact Hcost|]. split; [reflexivity|].
  split; [change (step_uniform w c s) with (1 / 2); lra|]. split.
  - change (vec1 w) with Extractor_p. unfold toy_draw, Extractor_p; simpl.
    intros H. injection H as H. lra.
  - exists c', s'. exact Hstep.
Qed.

(** ** Underflow of the exponential *)

Lemma exp_nat_ge_pow2 (n : nat) : 2 ^ n <= exp (INR n).
Proof.
  induction n as [|n IH].
  - simpl. rewrite exp_0. lra.
  - rewrite S_INR, exp_plus. simpl.
    pose proof (exp_ineq1_le 1) as H1.
    pose proof (pow_lt 2 n ltac:(lra)) as Hp.
    pose proof (exp_pos (INR n)) as He.
    rewrite (Rmult_comm 2). apply Rmult_le_compat; lra.
Qed.

Lemma exp_underflows x : x <= -1075 -> exp x <= f64_underflow.
Proof.
  intros Hx. unfold f64_underflow.
  pose proof (exp_nat_ge_pow2 1075) as Hn.
  replace (INR 1075) with 1075 in Hn
    by (rewrite INR_IZR_INZ; reflexivity).
  apply Rle_trans with (exp (-1075)).
  - destruct Hx as [Hx| ->]; [left; now apply exp_increasing | right; reflexivity].
  - replace (-1075) with (- (1075)) by lra.
    rewrite exp_Ropp. apply Rinv_le_contravar; [apply pow_lt; lra | exact Hn].
Qed.

Lemma np_exp_underflows x : x <= -1075 -> np_exp (Fin x) = Fin 0.
Proof.
  intros Hx. unfold np_exp.
  replace (Rleb (exp x) f64_underflow) with true
    by (symmetry; apply Rleb_true; now apply exp_underflows).
  reflexivity.
Qed.

(** Against the sentinel cost the test fails for every [u >= 0] when the
    current cost is NaN or lies 2150 or more below the sentinel. *)
Lemma metropolis_test_sentinel c1 u :
  0 <= u ->
  fle c1 (Fin (1e20 - 2150)) = true \/ is_nan c1 = true ->
  metropolis_test c1 (Fin 1e20) u = false.
Proof.
  intros Hu H. unfold metropolis_test, fgt, fsub.
  destruct c1 as [x| | |]; simpl in H; destruct H as [H|H]; try discriminate.
  - apply Rleb_true in H. simpl.
    rewrite np_exp_underflows by lra.
    simpl. apply Rltb_false. lra.
  - simpl. unfold scale_inf. rcmp. unfold np_exp. simpl. apply Rltb_false. lra.
  - reflexivity.
Qed.

(** A key determines the chain and the local step. *)
Lemma key_injective (total n1 n2 i1 i2 : Z) :
  (0 <= i1 < total)%Z -> (0 <= i2 < total)%Z ->
  (i1 + n1 * total = i2 + n2 * total)%Z ->
  i1 = i2 /\ n1 = n2.
Proof.
  intros H1 H2 Hk.
  destruct (Z.div_mod_unique total n1 n2 i1 i2) as [Hn Hi]; [lia | lia | lia |].
  now split.
Qed.

(** ** C2, C7, C3: the candidate's cost and the row of an iteration *)

Section Iteration.

Context {E : External}.

(** C2, as the code has it: when the prior weight of the candidate is at
    or below the threshold [1e-10], [self.chisq] is not called on it and
    its cost is the sentinel [1e20]; the candidate is then never accepted
    when the current cost is NaN or at most [1e20 - 2150], and it is
    accepted for every [u] in [0, 1) when the current cost is [1e20] or
    more. *)
Theorem infeasible_candidate (self : Extractor_MCMC) (i : Z)
    (w : walker) (c : Chain) (s : proc) (prior2 : float64) :
  candidate_fits self w c s ->
  prior (bounds self) (step_candidate w c s) = Ok prior2 ->
  fle prior2 (Fin 1e-10) = true ->
  exists w' c' s',
    step_cost self w c s = Ok (Fin 1e20) /\
    mcmc_step self i (w, c, s) = Ok (w', c', s') /\
    chisq_calls s' = chisq_calls s /\
    (0 <= step_uniform w c s ->
     fle (chisq1 w) (Fin (1e20 - 2150)) = true \/ is_nan (chisq1 w) = true ->
     w' = w) /\
    (0 <= step_uniform w c s < 1 ->
     fle (Fin 1e20) (chisq1 w) = true ->
     vec1 w' = step_candidate w c s /\ chisq1 w' = Fin 1e20).
Proof.
  intros Hfits Hprior Hle.
  destruct (mcmc_step_run self i w c s Hfits)
    as (feasible & Hp & Hcost & c' & s' & Hstep & _ & _ & _ & _ & _ & _ & _ & Hcalls & _).
  assert (feasible = false) as ->.
  { destruct feasible; [|reflexivity].
    rewrite Hp in Hprior. injection Hprior as <-.
    simpl in Hle. apply Rleb_true in Hle. lra. }
  rewrite app_nil_r in Hcalls.
  eexists; exists c', s'.
  split; [exact Hcost|]. split; [exact Hstep|]. split; [exact Hcalls|].
  split.
  - intros Hu Hc1. now rewrite metropolis_test_sentinel.
  - intros Hu Hc1.
    rewrite metropolis_test_better; [split; reflexivity | exact Hu | exact Hc1 |].
    now destruct (chisq1 w).
Qed.

(** C7: when [self.chisq] returns NaN or [+inf] for a feasible candidate
    while the current cost is finite, the candidate is not accepted, and
    the row of the step carries the unchanged current vector and cost. *)
Theorem non_finite_cost_rejected (self : Extractor_MCMC) (i : Z)
    (w : walker) (c : Chain) (s : proc) (prior2 : float64) :
  candidate_fits self w c s ->
  prior (bounds self) (step_candidate w c s) = Ok prior2 ->
  fgt prior2 (Fin 1e-10) = true ->
  chisq self (step_candidate w c s) = NaN \/
  chisq self (step_candidate w c s) = PInf ->
  isfinite (chisq1 w) = true ->
  0 <= step_uniform w c s < 1 ->
  exists c' s',
    step_cost self w c s = Ok (chisq self (step_candidate w c s)) /\
    mcmc_step self i (w, c, s) = Ok (w, c', s') /\
    rows c' = rows c ++ [((i + nchain c * nsteps c)%Z,
                          make_dictline c i (chisq1 w) (vec1 w))].
Proof.
  intros Hfits Hprior Hgt Hbad Hfin Hu.
  destruct (mcmc_step_run self i w c s Hfits)
    as (feasible & Hp & Hcost & c' & s' & Hstep & Hrows & _).
  assert (feasible = true) as ->.
  { destruct feasible; [reflexivity|].
    rewrite Hp in Hprior. injection Hprior as <-.
    rewrite fgt_zero_threshold in Hgt. discriminate. }
  assert (Ht : metropolis_test (chisq1 w) (chisq self (step_candidate w c s))
                 (step_uniform w c s) = false).
  { unfold metropolis_test, fgt, fsub.
    destruct (chisq1 w) as [x1| | |]; try discriminate.
    destruct Hbad as [-> | ->]; simpl; [reflexivity|].
    unfold scale_inf. rcmp. unfold np_exp. simpl. apply Rltb_false. lra. }
  rewrite Ht in Hstep, Hrows.
  exists c', s'. now repeat split.
Qed.

(** C3: an iteration appends exactly one row, under the key
    [local_step + chain_id * total_steps], which no other step of any
    chain of [total_steps] steps has; the row carries the state after the
    decision: the candidate and its cost when the test of line 303
    passes, the unchanged current vector and cost when it fails; a loop
    over any keys appends one row per key, under these keys. *)
Theorem one_row_per_iteration (self : Extractor_MCMC) (i : Z)
    (w : walker) (c : Chain) (s : proc) :
  candidate_fits self w c s ->
  exists chisq2 w' c' s',
    step_cost self w c s = Ok chisq2 /\
    mcmc_step self i (w, c, s) = Ok (w', c', s') /\
    rows c' = rows c ++ [((i + nchain c * nsteps c)%Z,
                          make_dictline c i (chisq1 w') (vec1 w'))] /\
    (metropolis_test (chisq1 w) chisq2 (step_uniform w c s) = true ->
       vec1 w' = step_candidate w c s /\ chisq1 w' = chisq2) /\
    (metropolis_test (chisq1 w) chisq2 (step_uniform w c s) = false ->
       vec1 w' = vec1 w /\ chisq1 w' = chisq1 w) /\
    (forall (c2 : Chain) (i2 : Z),
       nsteps c2 = nsteps c ->
       (0 <= i < nsteps c)%Z -> (0 <= i2 < nsteps c2)%Z ->
       (i + nchain c * nsteps c = i2 + nchain c2 * nsteps c2)%Z ->
       i = i2 /\ nchain c = nchain c2) /\
    (forall keys wn cn sn,
       mcmc_loop self keys (w, c, s) = Ok (wn, cn, sn) ->
       exists new,
         rows cn = rows c ++ new /\ length new = length keys /\
         map fst new = map (fun k => (k + nchain c * nsteps c)%Z) keys).
Proof.
  intros Hfits.
  assert (Hloop : forall keys wn cn sn,
             mcmc_loop self keys (w, c, s) = Ok (wn, cn, sn) ->
             exists new,
               rows cn = rows c ++ new /\ length new = length keys /\
               map fst new = map (fun k => (k + nchain c * nsteps c)%Z) keys).
  { intros keys wn cn sn Hl.
    apply mcmc_loop_inv in Hl as (new & Hr & Hk & _).
    exists new. split; [exact Hr|]. split; [|exact Hk].
    apply (f_equal (@length Z)) in Hk. now rewrite !length_map in Hk. }
  destruct (mcmc_step_run self i w c s Hfits)
    as (feasible & _ & Hcost & c' & s' & Hstep & Hrows & _).
  eexists; eexists; exists c', s'.
  split; [exact Hcost|]. split; [exact Hstep|]. split; [exact Hrows|].
  destruct (metropolis_test _ _ _); cbn [vec1 chisq1].
  - split; [intros _; split; reflexivity|].
    split; [discriminate|]. split; [|exact Hloop].
    intros k i2 Hn H1 H2 Hk. rewrite Hn in *.
    now apply (key_injective (nsteps c)).
  - split; [discriminate|]. split; [intros _; split; reflexivity|].
    split; [|exact Hloop].
    intros k i2 Hn H1 H2 Hk. rewrite Hn in *.
    now apply (key_injective (nsteps c)).
Qed.

End Iteration.

Lemma infeasible_candidate_witness :
  let self := toy_self (-2) (fun _ => Fin 1) in
  let w := toy_walker (Fin 1) in
  let c := toy_chain (-2) 0 in
  let s := toy_proc (-2) 0 in
  exists c' s',
    @step_cost (toy_external (-2)) self w c s = Ok (Fin 1e20) /\
    @mcmc_step (toy_external (-2)) self 0 (w, c, s) = Ok (w, c', s') /\
    chisq_calls s' = chisq_calls s.
Proof.
  intros self w c s.
  assert (Hle : fle (Fin 0) (Fin 1e-10) = true)
    by (simpl; apply Rleb_true; lra).
  destruct (@infeasible_candidate (toy_external (-2)) self 0 w c s (Fin 0)
              (toy_candidate_fits (-2) _ _ 0 0%nat) toy_prior_outside Hle)
    as (w' & c' & s' & Hcost & Hstep & Hcalls & Hrej & _).
  assert (Hu : 0 <= step_uniform w c s)
    by (change (step_uniform w c s) with (1 / 2); lra).
  assert (Hc1 : fle (chisq1 w) (Fin (1e20 - 2150)) = true \/ is_nan (chisq1 w) = true)
    by (left; change (chisq1 w) with (Fin 1); simpl; apply Rleb_true; lra).
  rewrite (Hrej Hu Hc1) in Hstep.
  exists c', s'. now repeat split.
Defined.

(** C2 as stated fails for the finite current cost [1e20]: the candidate
    below the amplitude's lower bound is accepted with [u = 1/2]. *)
Lemma infeasible_candidate_counterexample :
  let self := toy_self (-2) (fun _ => Fin 1e20) in
  let w := toy_walker (Fin 1e20) in
  let c := toy_chain (-2) 0 in
  let s := toy_proc (-2) 0 in
  prior (bounds self) (@step_candidate (toy_external (-2)) w c s) = Ok (Fin 0) /\
  isfinite (chisq1 w) = true /\
  0 <= @step_uniform (toy_external (-2)) w c s < 1 /\
  @step_candidate (toy_external (-2)) w c s <> vec1 w /\
  exists w' c' s',
    @mcmc_step (toy_external (-2)) self 0 (w, c, s) = Ok (w', c', s') /\
    vec1 w' = @step_candidate (toy_external (-2)) w c s.
Proof.
  intros self w c s.
  destruct (@mcmc_step_run (toy_external (-2)) self 0 w c s
              (toy_candidate_fits (-2) _ _ 0 0%nat))
    as (feasible & Hp & Hcost & c' & s' & Hstep & _).
  change (step_candidate w c s) with (toy_draw (-2) Extractor_p) in *.
  change (bounds self) with Extractor_bounds in *.
  rewrite toy_prior_outside in Hp.
  assert (feasible = false) as ->
    by (destruct feasible; [injection Hp; lra | reflexivity]).
  assert (Hu : 0 <= step_uniform w c s < 1)
    by (change (step_uniform w c s) with (1 / 2); lra).
  split; [exact toy_prior_outside|]. split; [reflexivity|].
  split; [exact Hu|]. split.
  - change (vec1 w) with Extractor_p. unfold toy_draw, Extractor_p; simpl.
    intros H. injection H as H. lra.
  - rewrite metropolis_test_better in Hstep;
      [| exact Hu
       | change (chisq1 w) with (Fin 1e20); simpl; apply Rleb_true; lra
       | reflexivity].
    eexists; exists c', s'. split; [exact Hstep | reflexivity].
Qed.

Lemma non_finite_cost_rejected_witness :
  let self := toy_self 1 (fun _ => NaN) in
  let w := toy_walker (Fin 1) in
  let c := toy_chain 1 0 in
  let s := toy_proc 1 0 in
  exists c' s',
    @mcmc_step (toy_external 1) self 0 (w, c, s) = Ok (w, c', s') /\
    rows c' = [(0%Z, make_dictline c 0 (Fin 1) Extractor_p)].
Proof.
  intros self w c s.
  assert (Hu : 0 <= @step_uniform (toy_external 1) w c s < 1)
    by (change (step_uniform w c s) with (1 / 2); lra).
  destruct (@non_finite_cost_rejected (toy_external 1) self 0 w c s (Fin 1)
              (toy_candidate_fits 1 _ _ 0 0%nat) toy_prior_inside
              fgt_one_threshold (or_introl eq_refl) eq_refl Hu)
    as (c' & s' & _ & Hstep & Hrows).
  exists c', s'. split; [exact Hstep | exact Hrows].
Defined.

Lemma one_row_per_iteration_witness :
  let self := toy_self 1 (fun _ => Fin 1) in
  let w := toy_walker (Fin 1) in
  let c := toy_chain 1 1 in
  let s := toy_proc 1 0 in
  exists w' c' s',
    @mcmc_step (toy_external 1) self 2 (w, c, s) = Ok (w', c', s') /\
    rows c' = [(5%Z, make_dictline c 2 (chisq1 w') (vec1 w'))] /\
    (2 = 2 /\ nchain c = nchain c)%Z.
Proof.
  intros self w c s.
  destruct (@one_row_per_iteration (toy_external 1) self 2 w c s
              (toy_candidate_fits 1 _ _ 1 0%nat))
    as (chisq2 & w' & c' & s' & _ & Hstep & Hrows & _ & _ & Hkey & _).
  exists w', c', s'. split; [exact Hstep|]. split; [exact Hrows|].
  apply (Hkey c 2%Z); simpl; lia.
Defined.


(** ** The start of a walk *)

Section Start.

Context {E : External}.

(** The vector that the initialisation of a chain without rows returns
    has passed the test of line 263. *)
Lemma draw_first_inv (self : Extractor_MCMC) (c : Chain) fuel : forall s v s',
  draw_first fuel self c s = Ok (v, s') ->
  chains_file s' = chains_file s /\
  chisq_calls s' = chisq_calls s /\
  exists prior1, prior (bounds self) v = Ok prior1 /\ flt prior1 (Fin 1e-9) = false.
Proof.
  induction fuel as [|fuel IH]; intros s v s' H; cbn [draw_first] in H;
    [discriminate|].
  unfold call_draw_vector in H.
  destruct (draw_vector (proposal_cov c) (start_vec c) (np_random s)) as [v1 g1].
  destruct (prior (bounds self) v1) as [p| |] eqn:Hp; cbn [bind] in H;
    try discriminate.
  destruct (flt p (Fin 1e-9)) eqn:Hlt.
  - apply IH in H as (Hf & Hc & Hex). now repeat split.
  - injection H as <- <-. repeat split; try reflexivity. now exists p.
Qed.

Lemma first_vector_inv (self : Extractor_MCMC) fuel c s v c1 s1 :
  first_vector fuel self c s = Ok (v, c1, s1) ->
  chains_file s1 = chains_file s /\
  chisq_calls s1 = chisq_calls s /\
  rows c1 = rows c /\ nchain c1 = nchain c /\ nsteps c1 = nsteps c /\
  start_key c1 = start_key c /\
  (start_key c <> -1 ->
     v = start_vec c /\ start_index c1 = start_index c + 1 /\ s1 = s)%Z /\
  (start_key c = -1 ->
     start_index c1 = start_index c /\
     exists prior1, prior (bounds self) v = Ok prior1 /\
                    flt prior1 (Fin 1e-9) = false)%Z.
Proof.
  unfold first_vector. destruct (start_key c =? -1)%Z eqn:Hk.
  - apply Z.eqb_eq in Hk.
    destruct (draw_first fuel self c s) as [[v0 s0]| |] eqn:Hd; cbn [bind];
      try discriminate.
    intros H; injection H as <- <- <-.
    apply draw_first_inv in Hd as (Hf & Hc & Hex).
    repeat split; try assumption; try reflexivity; intros; try contradiction.
    all: assumption.
  - apply Z.eqb_neq in Hk.
    intros H; injection H as <- <- <-.
    repeat split; try reflexivity; intros; contradiction.
Qed.

(** What lines 268-269 do to the first vector. *)
Lemma rescale_inv (self : Extractor_MCMC) v v' :
  rescale self v = Ok v' ->
  exists m,
    np_max (fst (simulation self v) ++ snd (simulation self v)) = Ok m /\
    (fgt m (Fin 0) = true ->
       exists v0 d,
         getitem v 0 = Ok v0 /\ np_max (spectrum_data self) = Ok d /\
         v' = fmul v0 (fdiv d m) :: tl v) /\
    (fgt m (Fin 0) = false -> v' = v).
Proof.
  unfold rescale.
  destruct (np_max (fst (simulation self v) ++ snd (simulation self v)))
    as [m| |]; cbn [bind]; try discriminate.
  intros H. exists m. split; [reflexivity|].
  destruct (fgt m (Fin 0)).
  - destruct (getitem v 0) as [v0| |]; cbn [bind] in H; try discriminate.
    destruct (np_max (spectrum_data self)) as [d| |]; cbn [bind] in H;
      try discriminate.
    injection H as <-.
    split; [|discriminate]. intros _. now exists v0, d.
  - injection H as <-. split; [discriminate | reflexivity].
Qed.

Lemma np_max_nonempty (a : list float64) : a <> [] -> exists m, np_max a = Ok m.
Proof. destruct a; [contradiction|]. intros _. now eexists. Qed.

(** Lines 268-269 raise nothing on arrays that are not empty, and keep
    the dimension. *)
Lemma rescale_total (self : Extractor_MCMC) v :
  rescale_defined self v ->
  exists v', rescale self v = Ok v' /\ length v' = length v.
Proof.
  intros (Hsim & Hdata & Hv). unfold rescale.
  destruct (np_max_nonempty _ Hsim) as [m ->].
  destruct (np_max_nonempty _ Hdata) as [d ->].
  cbn [bind]. destruct (fgt m (Fin 0)).
  - destruct v as [|v0 v]; [contradiction|]. cbn. now eexists.
  - now eexists.
Qed.

(** What the lines before the loop leave behind. *)
Lemma mcmc_start_inv (self : Extractor_MCMC) fuel c s w c' s' :
  mcmc_start fuel self c s = Ok (w, c', s') ->
  exists v c1 s1,
    first_vector fuel self c (set_np_random s (np_random_seed (nchain c)))
    = Ok (v, c1, s1) /\
    rescale self v = Ok (vec1 w) /\
    chisq1 w = chisq self (vec1 w) /\
    chains_file s' = chains_file s /\
    chisq_calls s' = chisq_calls s ++ [vec1 w] /\
    rows c' = rows c /\ nchain c' = nchain c /\ nsteps c' = nsteps c /\
    start_index c' = start_index c1.
Proof.
  unfold mcmc_start.
  destruct (first_vector fuel self c _) as [[[v c1] s1]| |] eqn:Hf;
    cbn [bind]; try discriminate.
  destruct (rescale self v) as [v'| |] eqn:Hr; cbn [bind]; try discriminate.
  unfold call_chisq. intros H. injection H as <- <- <-.
  apply first_vector_inv in Hf as Hi.
  destruct Hi as (Hfile & Hcalls & Hrows & Hn & Ht & Hk & _).
  exists v, c1, s1. cbn [vec1 chisq1 chains_file chisq_calls].
  rewrite Hcalls. cbn in Hfile |- *.
  repeat split; try assumption; try reflexivity;
    destruct (start_key c =? -1)%Z; cbn; assumption || reflexivity.
Qed.

(** A chain with rows starts without a draw: no fuel is used. *)
Lemma mcmc_start_resumed (self : Extractor_MCMC) fuel c s :
  start_key c <> (-1)%Z ->
  rescale_defined self (start_vec c) ->
  exists v',
    rescale self (start_vec c) = Ok v' /\ length v' = length (start_vec c) /\
    mcmc_start fuel self c s
    = Ok ({| vec1 := v'; chisq1 := chisq self v';
             L1 := np_exp (fadd (fmul (Fin (-0.5)) (chisq self v'))
                     (fmul (Fin 0.5) (Fin (IZR (spectrum_lambdas_size self))))) |},
          set_start_vec (set_start_index c (start_index c + 1)) v',
          {| np_random := np_random_seed (nchain c);
             chains_file := chains_file s;
             chisq_calls := chisq_calls s ++ [v'];
             draws := draws s |}).
Proof.
  intros Hk Hdef. apply Z.eqb_neq in Hk.
  destruct (rescale_total self _ Hdef) as (v' & Hr & Hlen).
  exists v'. split; [exact Hr|]. split; [exact Hlen|].
  unfold mcmc_start, first_vector. rewrite Hk. cbn [bind].
  rewrite Hr. cbn [bind]. reflexivity.
Qed.

(** A chain without rows whose first draw passes the test of line 263
    starts from that draw, rescaled. *)
Lemma mcmc_start_new (self : Extractor_MCMC) fuel c s prior1 :
  start_key c = (-1)%Z ->
  let v := fst (draw_vector (proposal_cov c) (start_vec c)
                  (np_random_seed (nchain c))) in
  prior (bounds self) v = Ok prior1 ->
  flt prior1 (Fin 1e-9) = false ->
  rescale_defined self v ->
  exists v' w c' s',
    rescale self v = Ok v' /\
    mcmc_start (S fuel) self c s = Ok (w, c', s') /\
    vec1 w = v' /\ chisq1 w = chisq self v' /\
    draws s' = draws s ++ [Proposal v].
Proof.
  intros Hk v Hp Hlt Hdef. subst v.
  destruct (rescale_total self _ Hdef) as (v' & Hr & _).
  unfold mcmc_start, first_vector. rewrite Hk. cbn [Z.eqb Pos.eqb draw_first].
  unfold call_draw_vector, set_np_random at 1. cbn [np_random].
  destruct (draw_vector (proposal_cov c) (start_vec c) (np_random_seed (nchain c)))
    as [v g] eqn:Hd.
  cbn [fst] in *. rewrite Hp. cbn [bind]. rewrite Hlt. cbn [bind].
  rewrite Hr. cbn [bind]. unfold call_chisq.
  eexists; eexists; eexists; eexists.
  split; [reflexivity|]. split; [reflexivity|].
  cbn. repeat split; reflexivity.
Qed.

End Start.

(** ** C10: the amplitude of the first vector *)

Section Amplitude.

Context {E : External}.

(** C10, as the code has it: before the loop, for a chain without rows
    and for a chain with rows alike, the amplitude of the first vector is
    multiplied by [np.max(self.spectrum.data) / np.max(sim)] whenever
    [np.max(sim)] is positive, where [np.max(sim)] is the maximum over
    both arrays that the simulation returns, the model and its error; a
    chain with rows whose amplitude is finite and not zero therefore does
    not start from the vector of its last row when that ratio is finite
    and not 1. *)
Theorem amplitude_rescaled (self : Extractor_MCMC) (fuel : nat)
    (c : Chain) (s : proc) (w : walker) (c' : Chain) (s' : proc) :
  mcmc_start fuel self c s = Ok (w, c', s') ->
  exists v m,
    (start_key c <> (-1)%Z -> v = start_vec c) /\
    (start_key c = (-1)%Z ->
       exists prior1, prior (bounds self) v = Ok prior1 /\
                      flt prior1 (Fin 1e-9) = false) /\
    np_max (fst (simulation self v) ++ snd (simulation self v)) = Ok m /\
    (fgt m (Fin 0) = true ->
       exists v0 d,
         getitem v 0 = Ok v0 /\ np_max (spectrum_data self) = Ok d /\
         vec1 w = fmul v0 (fdiv d m) :: tl v) /\
    (fgt m (Fin 0) = false -> vec1 w = v) /\
    (start_key c <> (-1)%Z -> fgt m (Fin 0) = true ->
     forall x d ratio,
       getitem (start_vec c) 0 = Ok (Fin x) ->
       np_max (spectrum_data self) = Ok d ->
       fdiv d m = Fin ratio -> x <> 0 -> ratio <> 1 ->
       vec1 w <> start_vec c).
Proof.
  intros H.
  apply mcmc_start_inv in H as (v & c1 & s1 & Hf & Hr & _).
  apply first_vector_inv in Hf as (_ & _ & _ & _ & _ & _ & Hres & Hnew).
  apply rescale_inv in Hr as (m & Hm & Hpos & Hneg).
  exists v, m.
  split; [intros Hk; now apply Hres|].
  split; [intros Hk; now apply Hnew|].
  split; [exact Hm|]. split; [exact Hpos|]. split; [exact Hneg|].
  intros Hk Hgt x d ratio Hx Hd Hratio Hx0 Hr1 Heq.
  destruct (Hres Hk) as (-> & _).
  destruct (Hpos Hgt) as (v0 & d' & Hv0 & Hd' & Hw).
  rewrite Hx in Hv0. injection Hv0 as <-.
  rewrite Hd in Hd'. injection Hd' as <-.
  rewrite Hratio in Hw. rewrite Hw in Heq.
  destruct (start_vec c) as [|a rest]; [discriminate|].
  cbn in Hx. injection Hx as ->. cbn in Heq.
  injection Heq as Heq. nra.
Qed.

End Amplitude.

Lemma toy_np_max_sim :
  np_max ([Fin 1; Fin 0.5] ++ [Fin 0.1; Fin 0.1]) = Ok (Fin 1).
Proof. fcompute. reflexivity. Qed.

Lemma toy_np_max_data : np_max [Fin 1; Fin 2] = Ok (Fin 2).
Proof. fcompute. reflexivity. Qed.

Lemma toy_ratio : fdiv (Fin 2) (Fin 1) = Fin (2 / 1).
Proof. simpl. rcmp. reflexivity. Qed.

Lemma toy_resumed_key shift :
  start_key (@Chain_init (toy_external shift) toy_log (Extractor_p, tt) 0 3)
  <> (-1)%Z.
Proof. cbn. lia. Qed.

Lemma toy_rescale_defined shift cost v :
  v <> [] -> @rescale_defined (toy_external shift) (toy_self shift cost) v.
Proof. intros Hv. repeat split; try discriminate. exact Hv. Qed.

Lemma amplitude_rescaled_witness :
  let self := toy_self 1 amplitude_cost in
  let c := @Chain_init (toy_external 1) toy_log (Extractor_p, tt) 0 3 in
  exists w c' s',
    @mcmc_start (toy_external 1) 0 self c (toy_proc 1 0) = Ok (w, c', s') /\
    vec1 w <> start_vec c.
Proof.
  intros self c.
  destruct (@mcmc_start_resumed (toy_external 1) self 0 c (toy_proc 1 0)
              (toy_resumed_key 1)
              (toy_rescale_defined 1 amplitude_cost Extractor_p ltac:(discriminate)))
    as (v' & _ & _ & Hs).
  eexists; eexists; eexists. split; [exact Hs|].
  destruct (@amplitude_rescaled (toy_external 1) self 0 c (toy_proc 1 0) _ _ _ Hs)
    as (v & m & Hv & _ & Hm & _ & _ & Hne).
  rewrite (Hv (toy_resumed_key 1)) in Hm.
  change (np_max ([Fin 1; Fin 0.5] ++ [Fin 0.1; Fin 0.1]) = Ok m) in Hm.
  rewrite toy_np_max_sim in Hm. injection Hm as <-.
  apply (Hne (toy_resumed_key 1)) with (x := 1) (d := Fin 2) (ratio := 2 / 1).
  - unfold fgt; simpl. apply Rltb_true. lra.
  - reflexivity.
  - exact toy_np_max_data.
  - exact toy_ratio.
  - lra.
  - lra.
Defined.

(** C10 as stated fails when the error of the simulated model exceeds
    the model: the amplitude is multiplied by 2/4, not by the maximum of
    the data over the maximum of the model, 2/1. *)
Lemma amplitude_rescaled_counterexample :
  let c := @Chain_init (toy_external 1) toy_log (Extractor_p, tt) 0 3 in
  exists w c1 s1 v,
    @mcmc_start (toy_external 1) 0 toy_self_err c (toy_proc 1 0) = Ok (w, c1, s1) /\
    vec1 w = Fin (1 * (2 / 4)) :: tl Extractor_p /\
    @rescale_by_model (toy_external 1) toy_self_err (start_vec c) = Ok v /\
    v = Fin (1 * (2 / 1)) :: tl Extractor_p /\
    vec1 w <> v.
Proof.
  intros c.
  assert (Hdef : @rescale_defined (toy_external 1) toy_self_err (start_vec c))
    by (repeat split; discriminate).
  destruct (@mcmc_start_resumed (toy_external 1) toy_self_err 0 c (toy_proc 1 0)
              (toy_resumed_key 1) Hdef) as (v' & Hr & _ & Hs).
  assert (Hr' : @rescale (toy_external 1) toy_self_err (start_vec c)
                = Ok (Fin (1 * (2 / 4)) :: tl Extractor_p)).
  { unfold rescale.
    change (simulation toy_self_err (start_vec c))
      with ([Fin 1; Fin 0.5], [Fin 4; Fin 0.1]).
    cbn [fst snd].
    replace (np_max ([Fin 1; Fin 0.5] ++ [Fin 4; Fin 0.1])) with (Ok (Fin 4))
      by (fcompute; reflexivity).
    cbn [bind].
    replace (fgt (Fin 4) (Fin 0)) with true
      by (unfold fgt; simpl; symmetry; apply Rltb_true; lra).
    change (spectrum_data toy_self_err) with [Fin 1; Fin 2].
    rewrite toy_np_max_data.
    change (start_vec c) with Extractor_p.
    cbn [bind getitem nth_error Extractor_p].
    replace (fdiv (Fin 2) (Fin 4)) with (Fin (2 / 4))
      by (simpl; rcmp; reflexivity).
    reflexivity. }
  rewrite Hr' in Hr. injection Hr as <-.
  eexists; eexists; eexists; eexists.
  split; [exact Hs|]. split; [reflexivity|]. split.
  - unfold rescale_by_model.
    change (simulation toy_self_err (start_vec c))
      with ([Fin 1; Fin 0.5], [Fin 4; Fin 0.1]).
    cbn [fst].
    replace (np_max [Fin 1; Fin 0.5]) with (Ok (Fin 1))
      by (fcompute; reflexivity).
    cbn [bind].
    replace (fgt (Fin 1) (Fin 0)) with true
      by (unfold fgt; simpl; symmetry; apply Rltb_true; lra).
    change (spectrum_data toy_self_err) with [Fin 1; Fin 2].
    rewrite toy_np_max_data.
    change (start_vec c) with Extractor_p.
    cbn [bind getitem nth_error Extractor_p].
    rewrite toy_ratio. reflexivity.
  - split; [reflexivity|].
    cbn [vec1]. intros H; injection H as H. lra.
Qed.

(** ** C4: resuming a chain *)

Lemma py_range_length a b : length (py_range a b) = Z.to_nat (b - a).
Proof. unfold py_range. now rewrite length_map, length_seq. Qed.

Lemma in_py_range a b i : In i (py_range a b) -> (a <= i < b)%Z.
Proof.
  unfold py_range. intros H. apply in_map_iff in H as (k & <- & Hk).
  apply in_seq in Hk. lia.
Qed.

Section Resume.

Context {E : External}.

(** The chain that is built on a log in which it has rows. *)
Lemma Chain_init_resumed (log : list row) covf n total key line :
  last_row log n = Some (key, line) ->
  Chain_init log covf n total
  = {| nchain := n; nsteps := total; start_vec := row_params line;
       start_key := key;
       start_index := Z.of_nat (length (chain_rows log n)) - 1;
       proposal_cov := snd covf; rows := [] |}.
Proof.
  unfold last_row, Chain_init.
  destruct (rev (chain_rows log n)) as [|[key' line'] rest]; [discriminate|].
  cbn. intros H. now injection H as -> ->.
Qed.

(** The walk of a chain with rows returns, whatever the fuel, and writes
    one row for every step from its cursor on. *)
Lemma mcmc_resumed (self : Extractor_MCMC) fuel c s :
  start_key c <> (-1)%Z ->
  rescale_defined self (start_vec c) ->
  proposals_fit self ->
  vec_fits self (start_vec c) ->
  exists v' c' s' new,
    rescale self (start_vec c) = Ok v' /\
    mcmc fuel self c s = Ok (c', s') /\
    rows c' = rows c ++ new /\
    chains_file s' = chains_file s ++ rows c ++ new /\
    map (fun r => row_index (snd r)) new
    = py_range (start_index c + 1) (nsteps c) /\
    map fst new = map (step_key c) (py_range (start_index c + 1) (nsteps c)) /\
    Forall (fun r => row_chain (snd r) = nchain c) new.
Proof.
  intros Hk Hdef Hfit Hv.
  destruct (mcmc_start_resumed self fuel c s Hk Hdef) as (v' & Hr & Hlen & Hs).
  assert (Hv' : vec_fits self v')
    by (destruct Hv; split; rewrite Hlen; assumption).
  unfold mcmc. rewrite Hs. cbn [bind].
  match goal with
  | |- context [mcmc_loop self ?ks (?w, ?c1, ?s1)] =>
      destruct (mcmc_loop_total self ks Hfit w c1 s1 Hv') as ([[w2 c2] s2] & Hl);
      rewrite Hl; cbn [bind];
      apply mcmc_loop_inv in Hl as (new & Hrows & Hkeys & Hidx & Hch & Hh & Hf)
  end.
  exists v', c2. eexists. exists new.
  split; [exact Hr|]. split; [reflexivity|].
  cbn in Hrows, Hkeys, Hidx, Hch, Hf |- *.
  unfold append2file. rewrite Hf, Hrows.
  repeat split; try reflexivity; assumption.
Qed.

(** C4, as the code has it: a chain that has [k > 0] rows in the log
    starts from the vector of its last row with the amplitude rescaled
    by lines 268-269 and from the cost computed anew for that vector; its
    walk goes through exactly [total_steps - k] iterations and writes
    exactly that many new rows, of local steps [k .. total_steps - 1];
    with [k >= total_steps] it goes through no iteration. *)
Theorem resumed_walk (self : Extractor_MCMC) (fuel : nat) (log : list row)
    (n : Z) (s : proc) (key : Z) (line : dictline) :
  let k := Z.of_nat (length (chain_rows log n)) in
  let total := self_nsteps self in
  let c := Chain_init log (covfile self) n total in
  last_row log n = Some (key, line) ->
  key <> (-1)%Z ->
  proposals_fit self ->
  vec_fits self (row_params line) ->
  rescale_defined self (row_params line) ->
  exists v' w c1 s1 c' s' new,
    rescale self (row_params line) = Ok v' /\
    mcmc_start fuel self c s = Ok (w, c1, s1) /\
    vec1 w = v' /\ chisq1 w = chisq self v' /\
    mcmc fuel self c s = Ok (c', s') /\
    chains_file s' = chains_file s ++ new /\
    length new = Z.to_nat (total - k) /\
    map (fun r => row_index (snd r)) new = py_range k total /\
    map fst new = map (fun i => (i + n * total)%Z) (py_range k total) /\
    Forall (fun r => row_chain (snd r) = n) new /\
    ((total <= k)%Z -> new = []).
Proof.
  intros k total c Hlast Hkey Hfit Hv Hdef.
  pose proof (Chain_init_resumed log (covfile self) n total key line Hlast) as Hc.
  fold c in Hc.
  assert (Hsk : start_key c <> (-1)%Z) by (rewrite Hc; exact Hkey).
  assert (Hsv : start_vec c = row_params line) by (rewrite Hc; reflexivity).
  assert (Hsi : (start_index c + 1 = k)%Z) by (rewrite Hc; cbn; lia).
  assert (Hnc : nchain c = n) by (rewrite Hc; reflexivity).
  assert (Hns : nsteps c = total) by (rewrite Hc; reflexivity).
  assert (Hro : rows c = []) by (rewrite Hc; reflexivity).
  rewrite <- Hsv in Hv, Hdef.
  destruct (mcmc_start_resumed self fuel c s Hsk Hdef) as (v0 & Hr0 & _ & Hs).
  destruct (mcmc_resumed self fuel c s Hsk Hdef Hfit Hv)
    as (v' & c' & s' & new & Hr & Hm & _ & Hfile & Hidx & Hkeys & Hch).
  rewrite Hr in Hr0. injection Hr0 as <-.
  rewrite Hsi, Hns in Hidx, Hkeys. rewrite Hro in Hfile. rewrite Hnc in Hch.
  rewrite Hsv in Hr.
  assert (Hlen : length new = Z.to_nat (total - k)).
  { rewrite <- py_range_length, <- Hidx. now rewrite length_map. }
  exists v'. eexists. eexists. eexists. exists c', s', new.
  split; [exact Hr|]. split; [exact Hs|].
  split; [reflexivity|]. split; [reflexivity|].
  split; [exact Hm|]. split; [exact Hfile|].
  split; [exact Hlen|].
  split; [exact Hidx|].
  split; [rewrite Hkeys; apply map_ext; intros; unfold step_key;
          now rewrite Hnc, Hns|].
  split; [exact Hch|].
  intros Hle. destruct new; [reflexivity | simpl in Hlen; lia].
Qed.

End Resume.

Lemma toy_proposals_fit shift cost :
  @proposals_fit (toy_external shift) (toy_self shift cost).
Proof.
  intros k v g [Hlo Hhi]. cbn [draw_vector toy_external fst].
  unfold vec_fits, toy_draw. destruct v; simpl in *; split; assumption.
Qed.

Lemma toy_vec_fits shift cost :
  @vec_fits (toy_external shift) (toy_self shift cost) Extractor_p.
Proof. split; simpl; lia. Qed.

Lemma toy_rescale shift cost a rest :
  @rescale (toy_external shift) (toy_self shift cost) (a :: rest)
  = Ok (fmul a (Fin (2 / 1)) :: rest).
Proof.
  unfold rescale.
  change (simulation (toy_self shift cost) (a :: rest))
    with ([Fin 1; Fin 0.5], [Fin 0.1; Fin 0.1]).
  cbn [fst snd]. rewrite toy_np_max_sim. cbn [bind].
  replace (fgt (Fin 1) (Fin 0)) with true
    by (unfold fgt; simpl; symmetry; apply Rltb_true; lra).
  change (spectrum_data (toy_self shift cost)) with [Fin 1; Fin 2].
  rewrite toy_np_max_data. cbn [bind getitem nth_error].
  rewrite toy_ratio. reflexivity.
Qed.

(** A chain without rows starts from its first draw, rescaled as well. *)
Example toy_new_chain_start :
  exists w c' s',
    @mcmc_start (toy_external 1) 1 (toy_self 1 amplitude_cost)
       (toy_chain 1 0) (toy_proc 1 0) = Ok (w, c', s') /\
    vec1 w = Fin ((1 + 1) * (2 / 1)) :: tl Extractor_p.
Proof.
  assert (Hlt : flt (Fin 1) (Fin 1e-9) = false)
    by (simpl; apply Rltb_false; lra).
  destruct (@mcmc_start_new (toy_external 1) (toy_self 1 amplitude_cost) 0
              (toy_chain 1 0) (toy_proc 1 0) (Fin 1) eq_refl
              toy_prior_inside Hlt
              (toy_rescale_defined 1 amplitude_cost (toy_draw 1 Extractor_p)
                 ltac:(discriminate)))
    as (v' & w & c' & s' & Hr & Hs & Hv & _).
  change (fst (draw_vector (proposal_cov (toy_chain 1 0))
                 (start_vec (toy_chain 1 0))
                 (np_random_seed (nchain (toy_chain 1 0)))))
    with (Fin (1 + 1) :: tl Extractor_p) in Hr.
  rewrite toy_rescale in Hr. injection Hr as <-.
  exists w, c', s'. split; [exact Hs | exact Hv].
Qed.

Lemma resumed_walk_witness :
  let self := toy_self 1 amplitude_cost in
  let c := @Chain_init (toy_external 1) toy_log (Extractor_p, tt) 0 3 in
  exists c' s' new,
    @mcmc (toy_external 1) 0 self c (toy_proc 1 0) = Ok (c', s') /\
    chains_file s' = new /\
    length new = 2%nat /\
    map (fun r => row_index (snd r)) new = [1; 2]%Z /\
    map fst new = [1; 2]%Z.
Proof.
  intros self c.
  destruct (@resumed_walk (toy_external 1) self 0 toy_log 0 (toy_proc 1 0)
              0%Z {| row_chain := 0; row_index := 0; row_chisq := Fin 1;
                     row_params := Extractor_p |}
              eq_refl ltac:(lia) (toy_proposals_fit 1 _) (toy_vec_fits 1 _)
              (toy_rescale_defined 1 amplitude_cost Extractor_p ltac:(discriminate)))
    as (v' & w & c1 & s1 & c' & s' & new & _ & _ & _ & _ & Hm & Hf & Hl & Hi & Hk & _).
  exists c', s', new.
  split; [exact Hm|]. split; [exact Hf|]. split; [exact Hl|].
  split; [exact Hi | exact Hk].
Defined.

(** C4 as stated fails in its first part: the chain does not start from
    the vector and the cost of its last row, but from the rescaled vector
    and its cost. *)
Lemma resumed_walk_counterexample :
  let self := toy_self 1 amplitude_cost in
  let c := @Chain_init (toy_external 1) toy_log (Extractor_p, tt) 0 3 in
  exists key line w c1 s1,
    last_row toy_log 0 = Some (key, line) /\
    @mcmc_start (toy_external 1) 0 self c (toy_proc 1 0) = Ok (w, c1, s1) /\
    vec1 w <> row_params line /\
    chisq1 w <> row_chisq line.
Proof.
  intros self c.
  destruct (@mcmc_start_resumed (toy_external 1) self 0 c (toy_proc 1 0)
              (toy_resumed_key 1)
              (toy_rescale_defined 1 amplitude_cost Extractor_p ltac:(discriminate)))
    as (v' & Hr & _ & Hs).
  assert (Hr' : rescale self (start_vec c) = Ok (Fin (1 * (2 / 1)) :: tl Extractor_p))
    by exact (toy_rescale 1 amplitude_cost (Fin 1) (tl Extractor_p)).
  rewrite Hr' in Hr. injection Hr as <-.
  eexists; eexists; eexists; eexists; eexists.
  split; [reflexivity|]. split; [exact Hs|].
  cbn [vec1 chisq1 snd row_params row_chisq]. split.
  - unfold Extractor_p; simpl. intros H; injection H as H. lra.
  - change (Fin (1 * (2 / 1)) <> Fin 1). intros H; injection H as H. lra.
Qed.

(** ** The walk and the records of the process *)

Section Frame.

Context {E : External}.

Lemma call_draw_vector_rebase (c : Chain) v b s :
  call_draw_vector c v (rebase b s)
  = (fst (call_draw_vector c v s), rebase b (snd (call_draw_vector c v s))).
Proof.
  unfold call_draw_vector, rebase; cbn.
  destruct (draw_vector (proposal_cov c) v (np_random s)); cbn.
  now rewrite app_assoc.
Qed.

Lemma mcmc_step_rebase (self : Extractor_MCMC) i w c b s :
  mcmc_step self i (w, c, rebase b s)
  = on_proc (rebase b) (mcmc_step self i (w, c, s)).
Proof.
  unfold mcmc_step. rewrite call_draw_vector_rebase.
  destruct (call_draw_vector c (vec1 w) s) as [vec2 s1]; cbn [fst snd].
  destruct (prior (bounds self) vec2) as [prior2| |]; cbn [bind on_proc];
    try reflexivity.
  unfold candidate_cost, call_chisq, call_uniform.
  destruct (fgt prior2 (Fin 1e-10)); cbn [np_random rebase];
    destruct (np_random_uniform (np_random s1)) as [r g2];
    destruct (decide _ _ _ _ _ _ _) as [line w'];
    cbn; rewrite <- ?app_assoc; reflexivity.
Qed.

Lemma mcmc_loop_rebase (self : Extractor_MCMC) keys b : forall w c s,
  mcmc_loop self keys (w, c, rebase b s)
  = on_proc (rebase b) (mcmc_loop self keys (w, c, s)).
Proof.
  induction keys as [|i keys IH]; intros w c s; cbn [mcmc_loop].
  - reflexivity.
  - rewrite mcmc_step_rebase.
    destruct (mcmc_step self i (w, c, s)) as [[[w1 c1] s1]| |];
      cbn [bind on_proc]; [apply IH | reflexivity | reflexivity].
Qed.

Lemma draw_first_rebase (self : Extractor_MCMC) c b fuel : forall s,
  draw_first fuel self c (rebase b s)
  = on_proc (rebase b) (draw_first fuel self c s).
Proof.
  induction fuel as [|fuel IH]; intros s; cbn [draw_first]; [reflexivity|].
  rewrite call_draw_vector_rebase.
  destruct (call_draw_vector c (start_vec c) s) as [v s1]; cbn [fst snd].
  destruct (prior (bounds self) v) as [p| |]; cbn [bind on_proc];
    try reflexivity.
  destruct (flt p (Fin 1e-9)); [apply IH | reflexivity].
Qed.

Lemma mcmc_start_rebase (self : Extractor_MCMC) fuel c b s :
  mcmc_start fuel self c (rebase b s)
  = on_proc (rebase b) (mcmc_start fuel self c s).
Proof.
  unfold mcmc_start, first_vector.
  change (set_np_random (rebase b s) (np_random_seed (nchain c)))
    with (rebase b (set_np_random s (np_random_seed (nchain c)))).
  destruct (start_key c =? -1)%Z.
  - rewrite draw_first_rebase.
    destruct (draw_first fuel self c _) as [[v s1]| |]; cbn [bind on_proc];
      try reflexivity.
    destruct (rescale self v) as [v'| |]; cbn [bind on_proc]; try reflexivity.
    unfold call_chisq, rebase; cbn. now rewrite app_assoc.
  - cbn [bind].
    destruct (rescale self (start_vec c)) as [v'| |]; cbn [bind on_proc];
      try reflexivity.
    unfold call_chisq, rebase; cbn. now rewrite app_assoc.
Qed.

(** The walk treats the records of the process it starts in as a prefix
    of its own. *)
Lemma mcmc_rebase (self : Extractor_MCMC) fuel c b s :
  mcmc fuel self c (rebase b s) = on_proc (rebase b) (mcmc fuel self c s).
Proof.
  unfold mcmc. rewrite mcmc_start_rebase.
  destruct (mcmc_start fuel self c s) as [[[w c1] s1]| |]; cbn [bind on_proc];
    try reflexivity.
  rewrite mcmc_loop_rebase.
  destruct (mcmc_loop self (mcmc_keys c1) (w, c1, s1)) as [[[w2 c2] s2]| |];
    cbn [bind on_proc]; try reflexivity.
  unfold rebase, append2file; cbn. now rewrite app_assoc.
Qed.

(** The walk seeds the generator before it draws: the generator it
    starts with does not matter. *)
Lemma mcmc_reseeds (self : Extractor_MCMC) fuel c s g :
  mcmc fuel self c (set_np_random s g) = mcmc fuel self c s.
Proof. reflexivity. Qed.

(** Every run of the walk of a chain is the run from a bare process,
    put after the records of the process it starts in. *)
Lemma mcmc_canonical (self : Extractor_MCMC) fuel c s g :
  mcmc fuel self c s = on_proc (rebase s) (mcmc fuel self c (bare g)).
Proof.
  rewrite <- mcmc_rebase.
  rewrite <- (mcmc_reseeds self fuel c (rebase s (bare g)) (np_random s)).
  f_equal. destruct s; unfold set_np_random, rebase, bare; cbn.
  now rewrite !app_nil_r.
Qed.

End Frame.

(** ** C8: the generator of a chain *)

Section Generator.

Context {E : External}.

Lemma on_proc_ok {A : Type} (f : proc -> proc) (r : result (A * proc)) a s :
  on_proc f r = Ok (a, s) -> exists s0, r = Ok (a, s0) /\ s = f s0.
Proof.
  destruct r as [[a0 s0]| |]; cbn; try discriminate.
  intros H; injection H as <- <-. now exists s0.
Qed.

Lemma drawn_from_app g a g1 b g2 :
  drawn_from g a g1 -> drawn_from g1 b g2 -> drawn_from g (a ++ b) g2.
Proof.
  induction 1 as [g|g k centre ds g' _ IH|g ds g' _ IH]; intros Hb; cbn [app].
  - exact Hb.
  - constructor. now apply IH.
  - constructor. now apply IH.
Qed.

Lemma draws_threaded_trans s s1 s2 d1 d2 :
  draws_threaded s s1 d1 -> draws_threaded s1 s2 d2 ->
  draws_threaded s s2 (d1 ++ d2).
Proof.
  intros [H1 T1] [H2 T2]. split.
  - now rewrite H2, H1, app_assoc.
  - exact (drawn_from_app _ _ _ _ _ T1 T2).
Qed.

(** An iteration draws a proposal and then a value [r], from the
    generator of its process. *)
Lemma mcmc_step_drawn (self : Extractor_MCMC) i w c s w' c' s' :
  mcmc_step self i (w, c, s) = Ok (w', c', s') ->
  draws_threaded s s'
    [Proposal (fst (draw_vector (proposal_cov c) (vec1 w) (np_random s)));
     Uniform (fst (np_random_uniform
                     (snd (draw_vector (proposal_cov c) (vec1 w) (np_random s)))))].
Proof.
  unfold mcmc_step, call_draw_vector, draws_threaded.
  destruct (draw_vector (proposal_cov c) (vec1 w) (np_random s)) as [vec2 g1]
    eqn:Hd.
  cbn [fst snd].
  destruct (prior (bounds self) vec2) as [prior2| |]; cbn [bind]; try discriminate.
  unfold candidate_cost, call_chisq, call_uniform.
  assert (Ht : forall g2,
             g2 = snd (np_random_uniform g1) ->
             drawn_from (np_random s)
               [Proposal vec2; Uniform (fst (np_random_uniform g1))] g2).
  { intros g2 ->.
    replace vec2 with (fst (draw_vector (proposal_cov c) (vec1 w) (np_random s)))
      by now rewrite Hd.
    constructor. rewrite Hd. cbn [snd]. constructor. constructor. }
  destruct (fgt prior2 (Fin 1e-10)); cbn [np_random];
    destruct (np_random_uniform g1) as [r g2] eqn:Hu;
    unfold decide;
    match goal with
    | |- context [metropolis_test ?a ?b ?u] => destruct (metropolis_test a b u)
    end;
    destruct (i >? exploration_time self)%Z;
    intros H; injection H as <- <- <-;
    cbn [draws np_random set_proposal_cov newrow fst snd] in *;
    (split; [now rewrite <- app_assoc | now apply Ht]).
Qed.

Lemma mcmc_loop_drawn (self : Extractor_MCMC) keys : forall w c s w' c' s',
  mcmc_loop self keys (w, c, s) = Ok (w', c', s') ->
  exists d,
    draws_threaded s s' d /\ length d = (2 * length keys)%nat /\
    (forall i rest, keys = i :: rest ->
       exists tail,
         d = Proposal (fst (draw_vector (proposal_cov c) (vec1 w) (np_random s)))
             :: Uniform (fst (np_random_uniform
                          (snd (draw_vector (proposal_cov c) (vec1 w)
                                  (np_random s)))))
             :: tail).
Proof.
  induction keys as [|i keys IH]; intros w c s w' c' s' H; cbn [mcmc_loop] in H.
  - injection H as <- <- <-. exists []. split.
    + split; [now rewrite app_nil_r | constructor].
    + split; [reflexivity | discriminate].
  - destruct (mcmc_step self i (w, c, s)) as [[[w1 c1] s1]| |] eqn:Hs;
      cbn [bind] in H; try discriminate.
    apply mcmc_step_drawn in Hs.
    apply IH in H as (d & Hd & Hlen & _).
    eexists. split; [exact (draws_threaded_trans _ _ _ _ _ Hs Hd)|].
    split; [cbn [app length]; lia|].
    intros i0 rest _. cbn [app]. now exists d.
Qed.

Lemma draw_first_drawn (self : Extractor_MCMC) c fuel : forall s v s',
  draw_first fuel self c s = Ok (v, s') ->
  exists d,
    draws_threaded s s'
      (Proposal (fst (draw_vector (proposal_cov c) (start_vec c) (np_random s)))
       :: d).
Proof.
  induction fuel as [|fuel IH]; intros s v s' H; cbn [draw_first] in H;
    [discriminate|].
  unfold call_draw_vector in H.
  destruct (draw_vector (proposal_cov c) (start_vec c) (np_random s))
    as [v1 g1] eqn:Hd.
  cbn [fst].
  assert (H1 : draws_threaded s
                 {| np_random := g1; chains_file := chains_file s;
                    chisq_calls := chisq_calls s;
                    draws := draws s ++ [Proposal v1] |} [Proposal v1]).
  { split; [reflexivity|]. cbn [np_random].
    replace v1 with (fst (draw_vector (proposal_cov c) (start_vec c) (np_random s)))
      by now rewrite Hd.
    constructor. rewrite Hd. constructor. }
  destruct (prior (bounds self) v1) as [p| |]; cbn [bind] in H; try discriminate.
  destruct (flt p (Fin 1e-9)).
  - apply IH in H as (d & Hd').
    eexists. exact (draws_threaded_trans _ _ _ _ _ H1 Hd').
  - injection H as <- <-. exists []. exact H1.
Qed.

(** The lines before the loop set the generator to the seed of the
    chain's index and draw from it. *)
Lemma mcmc_start_drawn (self : Extractor_MCMC) fuel c s w c' s' :
  mcmc_start fuel self c s = Ok (w, c', s') ->
  proposal_cov c' = proposal_cov c /\ nsteps c' = nsteps c /\
  start_index c' = first_key c /\
  exists d,
    draws s' = draws s ++ d /\
    drawn_from (np_random_seed (nchain c)) d (np_random s') /\
    (start_key c = (-1)%Z ->
     exists tail,
       d = Proposal (fst (draw_vector (proposal_cov c) (start_vec c)
                            (np_random_seed (nchain c)))) :: tail) /\
    (start_key c <> (-1)%Z ->
     d = [] /\ np_random s' = np_random_seed (nchain c) /\
     rescale self (start_vec c) = Ok (vec1 w)).
Proof.
  unfold mcmc_start, first_vector, first_key.
  destruct (start_key c =? -1)%Z eqn:Hk.
  - destruct (draw_first fuel self c _) as [[v s1]| |] eqn:Hd; cbn [bind];
      try discriminate.
    destruct (rescale self v) as [v'| |]; cbn [bind]; try discriminate.
    unfold call_chisq. intros H; injection H as <- <- <-.
    apply draw_first_drawn in Hd as (d & Hd & Ht).
    cbn [np_random set_np_random draws vec1] in *.
    repeat split; try reflexivity.
    eexists. split; [exact Hd|]. split; [exact Ht|]. split.
    + intros _. now exists d.
    + intros Hne. apply Z.eqb_eq in Hk. contradiction.
  - cbn [bind].
    destruct (rescale self (start_vec c)) as [v'| |] eqn:Hr; cbn [bind];
      try discriminate.
    unfold call_chisq. intros H; injection H as <- <- <-.
    cbn [np_random set_np_random draws vec1 proposal_cov nsteps start_index
         set_start_vec set_start_index].
    repeat split; try reflexivity.
    exists []. rewrite app_nil_r. split; [reflexivity|].
    split; [constructor|]. split.
    + intros Heq. apply Z.eqb_neq in Hk. contradiction.
    + intros _. repeat split; reflexivity.
Qed.

(** The draws of a walk: all of them come, one after the other, from the
    generator seeded with the index of the chain. *)
Lemma mcmc_drawn (self : Extractor_MCMC) fuel c s c' s' :
  mcmc fuel self c s = Ok (c', s') ->
  exists d,
    draws s' = draws s ++ d /\
    drawn_from (np_random_seed (nchain c)) d (np_random s') /\
    (2 * Z.to_nat (nsteps c - first_key c) <= length d)%nat /\
    (start_key c = (-1)%Z ->
     exists tail,
       d = Proposal (fst (draw_vector (proposal_cov c) (start_vec c)
                            (np_random_seed (nchain c)))) :: tail) /\
    (start_key c <> (-1)%Z ->
     length d = (2 * Z.to_nat (nsteps c - first_key c))%nat /\
     ((first_key c < nsteps c)%Z ->
      exists v' tail,
        rescale self (start_vec c) = Ok v' /\
        d = Proposal (fst (draw_vector (proposal_cov c) v'
                             (np_random_seed (nchain c))))
            :: Uniform (fst (np_random_uniform
                         (snd (draw_vector (proposal_cov c) v'
                                 (np_random_seed (nchain c))))))
            :: tail)).
Proof.
  unfold mcmc.
  destruct (mcmc_start fuel self c s) as [[[w c1] s1]| |] eqn:Hs; cbn [bind];
    try discriminate.
  destruct (mcmc_loop self _ (w, c1, s1)) as [[[w2 c2] s2]| |] eqn:Hl;
    cbn [bind]; try discriminate.
  intros H; injection H as <- <-. cbn [draws np_random].
  apply mcmc_start_drawn in Hs
    as (Hcov & Hn & Hi & d1 & Hd1 & Ht1 & Hnew & Hres).
  apply mcmc_loop_drawn in Hl as (d2 & [Hd2 Ht2] & Hlen & Hhead).
  assert (Hkeys : length (mcmc_keys c1) = Z.to_nat (nsteps c - first_key c))
    by (unfold mcmc_keys; now rewrite py_range_length, Hn, Hi).
  exists (d1 ++ d2). split; [now rewrite Hd2, Hd1, app_assoc|].
  split; [exact (drawn_from_app _ _ _ _ _ Ht1 Ht2)|].
  split; [rewrite length_app; lia|]. split.
  - intros Hk. destruct (Hnew Hk) as (tail & ->). now exists (tail ++ d2).
  - intros Hk. destruct (Hres Hk) as (-> & Hg & Hr). cbn [app].
    split; [lia|]. intros Hlt.
    destruct (mcmc_keys c1) as [|i rest] eqn:Hks.
    + cbn in Hkeys. lia.
    + destruct (Hhead i rest eq_refl) as (tail & ->).
      exists (vec1 w), tail. split; [exact Hr|]. now rewrite Hcov, Hg.
Qed.

(** The walks that a pool runs draw what they draw when they run alone,
    each from the generator seeded with the index of its chain. *)
Lemma pool_map_draws (self : Extractor_MCMC) fuel g cs : forall log log' ws,
  pool_map fuel self cs g log = Ok (log', ws) ->
  Forall2 (fun c r =>
             walk_chain r = nchain c /\
             exists c' s',
               mcmc fuel self c (bare (np_random_seed (nchain c))) = Ok (c', s') /\
               walk_draws r = draws s' /\
               walk_chisq_calls r = chisq_calls s')
          cs ws.
Proof.
  induction cs as [|c cs IH]; intros log log' ws H; cbn [pool_map] in H.
  - injection H as <- <-. constructor.
  - destruct (mcmc fuel self c (worker_proc g log)) as [[c' s']| |] eqn:Hm;
      cbn [bind] in H; try discriminate.
    destruct (pool_map fuel self cs g (chains_file s')) as [[log1 ws1]| |] eqn:Hp;
      cbn [bind] in H; try discriminate.
    injection H as <- <-.
    constructor; [|now apply (IH _ _ _ Hp)].
    cbn. split; [reflexivity|].
    rewrite (mcmc_canonical self fuel c _ (np_random_seed (nchain c))) in Hm.
    apply on_proc_ok in Hm as (s0 & Hm & ->).
    exists c', s0. now repeat split.
Qed.

(** C8: the walk of a chain sets the generator of its process to the
    seed of the chain's index before it draws, and all it draws comes,
    one draw after the other, from that generator: the first draw of a
    chain without rows is the proposal around [chain.start_vec] under the
    seed itself, the first draws of a chain with rows are the proposal
    around the rescaled vector under the seed itself and the value [r]
    from the generator this proposal leaves, and there are two draws for
    every step.  Two executions of the walk of a chain therefore draw the
    same proposals and the same values [r], whatever the processes they
    start in; and every walk that a pool runs draws from the seed of its
    own chain, not from the generator of the calling process nor from
    where another walk left one, what it draws when it runs alone. *)
Theorem chain_generator_seeded (self : Extractor_MCMC) (fuel : nat) (c : Chain)
    (s1 s2 : proc) :
  (forall c' s1',
     mcmc fuel self c s1 = Ok (c', s1') ->
     exists drawn,
       draws s1' = draws s1 ++ drawn /\
       drawn_from (np_random_seed (nchain c)) drawn (np_random s1') /\
       (2 * Z.to_nat (nsteps c - first_key c) <= length drawn)%nat /\
       (start_key c = (-1)%Z ->
        exists tail,
          drawn = Proposal (fst (draw_vector (proposal_cov c) (start_vec c)
                                   (np_random_seed (nchain c)))) :: tail) /\
       (start_key c <> (-1)%Z ->
        length drawn = (2 * Z.to_nat (nsteps c - first_key c))%nat /\
        ((first_key c < nsteps c)%Z ->
         exists v' tail,
           rescale self (start_vec c) = Ok v' /\
           drawn = Proposal (fst (draw_vector (proposal_cov c) v'
                                    (np_random_seed (nchain c))))
                   :: Uniform (fst (np_random_uniform
                                (snd (draw_vector (proposal_cov c) v'
                                        (np_random_seed (nchain c))))))
                   :: tail)) /\
       exists s2',
         mcmc fuel self c s2 = Ok (c', s2') /\
         draws s2' = draws s2 ++ drawn /\
         np_random s2' = np_random s1') /\
  (forall cs g log log' ws,
     pool_map fuel self cs g log = Ok (log', ws) ->
     Forall2 (fun k r =>
                walk_chain r = nchain k /\
                (exists g',
                   drawn_from (np_random_seed (nchain k)) (walk_draws r) g') /\
                (2 * Z.to_nat (nsteps k - first_key k) <= length (walk_draws r))%nat /\
                exists k' s',
                  mcmc fuel self k (bare (np_random_seed (nchain k))) = Ok (k', s') /\
                  walk_draws r = draws s' /\
                  walk_chisq_calls r = chisq_calls s')
             cs ws).
Proof.
  split.
  - intros c' s1' H1.
    destruct (mcmc_drawn self fuel c s1 c' s1' H1)
      as (d & Hd & Ht & Hlen & Hnew & Hres).
    exists d. repeat (split; [assumption|]).
    rewrite (mcmc_canonical self fuel c s1 (np_random s1)) in H1.
    apply on_proc_ok in H1 as (s0 & H0 & ->).
    rewrite (mcmc_canonical self fuel c s2 (np_random s1)), H0.
    exists (rebase s2 s0). split; [reflexivity|].
    cbn [rebase draws np_random] in *.
    apply app_inv_head in Hd. now rewrite Hd.
  - intros cs g log log' ws Hp. apply pool_map_draws in Hp.
    induction Hp as [|k r cs ws (Hc & k' & s' & Hm & Hd & Hq) _ IH];
      constructor; [|exact IH].
    split; [exact Hc|].
    destruct (mcmc_drawn self fuel k _ k' s' Hm) as (d & Hdd & Ht & Hlen & _).
    cbn [bare draws app] in Hdd. rewrite <- Hd in Hdd. subst d.
    split; [now exists (np_random s')|]. split; [exact Hlen|].
    exists k', s'. now repeat split.
Qed.

End Generator.

Lemma chain_generator_seeded_witness :
  let self := toy_self 1 amplitude_cost in
  let c := @Chain_init (toy_external 1) toy_log (Extractor_p, tt) 0 3 in
  exists c' s1' s2' drawn,
    @mcmc (toy_external 1) 0 self c (toy_proc 1 0) = Ok (c', s1') /\
    @mcmc (toy_external 1) 0 self c
       {| np_random := 7%nat : @rng (toy_external 1); chains_file := toy_log;
          chisq_calls := [Extractor_p]; draws := [Uniform 0] |} = Ok (c', s2') /\
    draws s1' = drawn /\
    draws s2' = Uniform 0 :: drawn /\
    @drawn_from (toy_external 1) (Z.to_nat 0) drawn (np_random s1') /\
    length drawn = 4%nat.
Proof.
  intros self c.
  destruct (@mcmc_resumed (toy_external 1) self 0 c (toy_proc 1 0)
              (toy_resumed_key 1)
              (toy_rescale_defined 1 amplitude_cost Extractor_p ltac:(discriminate))
              (toy_proposals_fit 1 _) (toy_vec_fits 1 _))
    as (v' & c' & s1' & new & _ & Hm & _).
  destruct (@chain_generator_seeded (toy_external 1) self 0 c (toy_proc 1 0)
              {| np_random := 7%nat : @rng (toy_external 1); chains_file := toy_log;
                 chisq_calls := [Extractor_p]; draws := [Uniform 0] |})
    as (Hone & _).
  destruct (Hone c' s1' Hm)
    as (drawn & Hd1 & Ht & _ & _ & Hres & s2' & Hm2 & Hd2 & _).
  destruct (Hres (toy_resumed_key 1)) as (Hlen & _).
  exists c', s1', s2', drawn. repeat split; assumption.
Defined.

(** ** C5: a second run *)

Section SecondRun.

Context {E : External}.

Lemma chain_rows_app (a b : list row) n :
  chain_rows (a ++ b) n = chain_rows a n ++ chain_rows b n.
Proof. unfold chain_rows. apply filter_app. Qed.

Lemma chain_rows_all (l : list row) n :
  Forall (fun r => row_chain (snd r) = n) l -> chain_rows l n = l.
Proof.
  unfold chain_rows. induction 1 as [|r l Hr _ IH]; cbn; [reflexivity|].
  rewrite Hr, Z.eqb_refl. now f_equal.
Qed.

(** A walk that returns has written its buffer and one row for every
    step from its first on, all of its own chain. *)
Lemma mcmc_inv (self : Extractor_MCMC) fuel c s c' s' :
  mcmc fuel self c s = Ok (c', s') ->
  exists new,
    chains_file s' = chains_file s ++ rows c ++ new /\
    Forall (fun r => row_chain (snd r) = nchain c) new /\
    length new = Z.to_nat (nsteps c - first_key c).
Proof.
  unfold mcmc.
  destruct (mcmc_start fuel self c s) as [[[w c1] s1]| |] eqn:Hs; cbn [bind];
    try discriminate.
  destruct (mcmc_loop self _ (w, c1, s1)) as [[[w2 c2] s2]| |] eqn:Hl;
    cbn [bind]; try discriminate.
  intros H; injection H as <- <-. cbn. unfold append2file.
  apply mcmc_loop_inv in Hl as (new & Hrows & _ & Hidx & Hch & _ & Hf).
  apply mcmc_start_inv in Hs
    as (v & c0 & s0 & Hfv & _ & _ & Hfile & _ & Hr1 & Hn1 & Ht1 & Hi1).
  apply first_vector_inv in Hfv as (_ & _ & _ & _ & _ & _ & Hres & Hnew).
  assert (Hlen : length new = length (mcmc_keys c1))
    by (rewrite <- Hidx; now rewrite length_map).
  exists new. rewrite Hf, Hfile, Hrows, Hr1, <- Hn1.
  split; [reflexivity|]. split; [exact Hch|].
  rewrite Hlen. unfold mcmc_keys. rewrite py_range_length, Ht1, Hi1.
  unfold first_key. destruct (start_key c =? -1)%Z eqn:Hk.
  - apply Z.eqb_eq in Hk. destruct (Hnew Hk) as [-> _]. reflexivity.
  - apply Z.eqb_neq in Hk. destruct (Hres Hk) as (_ & -> & _). reflexivity.
Qed.

(** A pool that returns has kept the row log and added, for each of its
    chains, at least the rows of the steps that the chain was missing. *)
Lemma pool_map_inv (self : Extractor_MCMC) fuel g cs : forall log log' ws,
  pool_map fuel self cs g log = Ok (log', ws) ->
  exists written,
    log' = log ++ written /\
    forall c, In c cs ->
      (Z.to_nat (nsteps c - first_key c)
       <= length (chain_rows written (nchain c)))%nat.
Proof.
  induction cs as [|c cs IH]; intros log log' ws H; cbn [pool_map] in H.
  - injection H as <- <-. exists []. rewrite app_nil_r. split; [reflexivity|].
    intros c [].
  - destruct (mcmc fuel self c (worker_proc g log)) as [[c' s']| |] eqn:Hm;
      cbn [bind] in H; try discriminate.
    destruct (pool_map fuel self cs g (chains_file s')) as [[log1 ws1]| |] eqn:Hp;
      cbn [bind] in H; try discriminate.
    injection H as <- <-.
    apply IH in Hp as (written & -> & Hcs).
    apply mcmc_inv in Hm as (new & Hf & Hch & Hlen). cbn in Hf.
    rewrite Hf, <- !app_assoc.
    eexists. split; [reflexivity|].
    intros k [<- | Hin]; rewrite !chain_rows_app, !length_app.
    + rewrite (chain_rows_all new (nchain c) Hch). lia.
    + specialize (Hcs k Hin). lia.
Qed.

Lemma Chain_init_header log covf n total :
  nchain (Chain_init log covf n total) = n /\
  nsteps (Chain_init log covf n total) = total /\
  (first_key (Chain_init log covf n total)
   <= Z.of_nat (length (chain_rows log n)))%Z.
Proof.
  unfold Chain_init, first_key.
  rewrite <- (length_rev (chain_rows log n)).
  destruct (rev (chain_rows log n)) as [|[key line] rest]; cbn [nchain nsteps start_key start_index].
  - repeat split; cbn; lia.
  - repeat split. destruct (key =? -1)%Z; lia.
Qed.

(** When the sampling has returned, every chain has its rows. *)
Lemma sample_completes (self : Extractor_MCMC) fuel o o1 :
  sample fuel self o = Ok o1 ->
  check_completness (file o1) (self_nchains self) (self_nsteps self) = true.
Proof.
  unfold sample.
  destruct (check_completness (file o) _ _) eqn:Hc; cbn [negb].
  - intros H; injection H as <-. exact Hc.
  - destruct (pool_map fuel self _ (parent_random o) (file o))
      as [[log ws]| |] eqn:Hp; cbn [bind]; try discriminate.
    intros H; injection H as <-. cbn [file].
    apply pool_map_inv in Hp as (written & -> & Hcs).
    unfold check_completness. apply forallb_forall. intros i Hi.
    apply Z.leb_le.
    destruct (Chain_init_header (file o) (covfile self) i (self_nsteps self))
      as (Hn & Ht & Hk).
    assert (Hin : In (Chain_init (file o) (covfile self) i (self_nsteps self))
                     (chains_chains o ++ new_chains self (file o))).
    { apply in_or_app. right. unfold new_chains.
      now apply (in_map (fun i => Chain_init (file o) (covfile self) i (self_nsteps self))). }
    specialize (Hcs _ Hin). rewrite Hn, Ht in Hcs.
    rewrite chain_rows_app, length_app. lia.
Qed.

(** The walk of every chain with rows returns: so does the pool. *)
Lemma pool_map_resumed (self : Extractor_MCMC) fuel g cs :
  proposals_fit self ->
  Forall (fun c => start_key c <> (-1)%Z /\
                   rescale_defined self (start_vec c) /\
                   vec_fits self (start_vec c)) cs ->
  forall log, exists log' ws, pool_map fuel self cs g log = Ok (log', ws).
Proof.
  intros Hfit. induction 1 as [|c cs (Hk & Hdef & Hv) _ IH]; intros log;
    cbn [pool_map].
  - now eexists; eexists.
  - destruct (mcmc_resumed self fuel c (worker_proc g log) Hk Hdef Hfit Hv)
      as (v' & c' & s' & new & _ & Hm & _).
    rewrite Hm. cbn [bind].
    destruct (IH (chains_file s')) as (log' & ws & ->). cbn [bind].
    now eexists; eexists.
Qed.

(** C5: when a first [run_mcmc] has returned, the completeness check
    reports complete, and a second [run_mcmc] returns the calling process
    as the first one left it: no [Chain] is created, no pool is
    dispatched, no walk is run, the row log is as it was, and the summary
    is built again from the same rows. *)
Theorem second_run_samples_nothing (self : Extractor_MCMC) (fuel fuel' : nat)
    (o o1 : session) :
  run_mcmc fuel self o = Ok o1 ->
  check_completness (file o1) (self_nchains self) (self_nsteps self) = true /\
  sample fuel' self o1 = Ok o1 /\
  run_mcmc fuel' self o1 = Ok o1 /\
  self_likelihood o1 = Some (chains_to_likelihood (file o1)).
Proof.
  unfold run_mcmc.
  destruct (sample fuel self o) as [o0| |] eqn:Hs; cbn [bind]; try discriminate.
  intros H; injection H as <-.
  apply sample_completes in Hs.
  assert (Hs1 : sample fuel' self (summarise o0) = Ok (summarise o0)).
  { unfold sample. cbn [file summarise]. rewrite Hs. reflexivity. }
  split; [exact Hs|]. split; [exact Hs1|].
  rewrite Hs1. cbn [bind]. split; reflexivity.
Qed.

End SecondRun.

Lemma toy_new_chains_resumed :
  Forall (fun c => start_key c <> (-1)%Z /\
                   @rescale_defined (toy_external 1) (toy_self 1 amplitude_cost) (start_vec c) /\
                   @vec_fits (toy_external 1) (toy_self 1 amplitude_cost) (start_vec c))
         (@new_chains (toy_external 1) (toy_self 1 amplitude_cost) toy_log2).
Proof.
  repeat constructor; cbn; try lia; try discriminate.
Qed.

Lemma second_run_samples_nothing_witness :
  let self := toy_self 1 amplitude_cost in
  exists o1,
    @run_mcmc (toy_external 1) 0 self toy_session = Ok o1 /\
    pools o1 = 1%nat /\
    @run_mcmc (toy_external 1) 0 self o1 = Ok o1.
Proof.
  intros self.
  destruct (@pool_map_resumed (toy_external 1) self 0 0%nat
              (new_chains self toy_log2) (toy_proposals_fit 1 _)
              toy_new_chains_resumed toy_log2) as (log' & ws & Hp).
  assert (Hrun : @run_mcmc (toy_external 1) 0 self toy_session
                 = Ok (summarise {| chains_chains := new_chains self toy_log2;
                                    file := log'; parent_random := 0%nat;
                                    pools := 1; walks := ws;
                                    self_likelihood := None |})).
  { unfold run_mcmc, sample.
    change (check_completness (file toy_session) (self_nchains self) (self_nsteps self))
      with false.
    cbn [negb]. change (chains_chains toy_session ++ new_chains self (file toy_session))
      with (new_chains self toy_log2).
    change (parent_random toy_session) with 0%nat.
    change (file toy_session) with toy_log2.
    rewrite Hp. reflexivity. }
  eexists. split; [exact Hrun|]. split; [reflexivity|].
  now destruct (@second_run_samples_nothing (toy_external 1) self 0 0
                  toy_session _ Hrun) as (_ & _ & H & _).
Defined.

(** ** C6: an interrupt *)

(** *** Ranges and the order of the rows *)

















(** *** A worker that is stopped *)

Section Interrupt.

Context {E : External}.



Lemma mcmc_file (self : Extractor_MCMC) fuel c s c' s' :
  mcmc fuel self c s = Ok (c', s') ->
  chains_file s' = chains_file s ++ rows c'.
Proof.
  unfold mcmc.
  destruct (mcmc_start fuel self c s) as [[[w c1] s1]| |] eqn:Hs; cbn [bind];
    try discriminate.
  destruct (mcmc_loop self _ (w, c1, s1)) as [[[w2 c2] s2]| |] eqn:Hl;
    cbn [bind]; try discriminate.
  intros H; injection H as <- <-. cbn. unfold append2file.
  apply mcmc_loop_inv in Hl as (new & _ & _ & _ & _ & _ & Hf).
  apply mcmc_start_inv in Hs as (_ & _ & _ & _ & _ & _ & Hfile & _).
  now rewrite Hf, Hfile.
Qed.



(** *** A pool that is stopped *)





(** *** The calling process *)







End Interrupt.






(** * Properties of the other methods *)

(** ** The densities *)

Lemma np_exp_0 : np_exp (Fin 0) = Fin 1.
Proof.
  unfold np_exp. rewrite exp_0.
  pose proof f64_underflow_lt_1. pose proof f64_overflow_gt_1.
  rcmp. reflexivity.
Qed.

Lemma np_exp_minus_sentinel : np_exp (Fin (-1e20)) = Fin 0.
Proof. apply np_exp_underflows. lra. Qed.

Lemma fmul_1_l a : fmul (Fin 1) a = a.
Proof.
  destruct a as [x| | |]; simpl; unfold scale_inf; rcmp; try reflexivity.
  f_equal. lra.
Qed.

Lemma prior_values b p x : prior b p = Ok x -> x = Fin 1 \/ x = Fin 0.
Proof.
  unfold prior. destruct (prior_loop b 0 p) as [[|]| |]; cbn [bind];
    intros H; try discriminate; injection H as <-; auto.
Qed.

Lemma np_isclose_1_0 : np_isclose (Fin 1) (Fin 0) = false.
Proof.
  simpl. apply Rleb_false. rewrite Rabs_R0.
  replace (1 - 0) with 1 by lra. rewrite Rabs_R1. lra.
Qed.

Lemma np_isclose_0_0 : np_isclose (Fin 0) (Fin 0) = true.
Proof.
  simpl. apply Rleb_true. replace (0 - 0) with 0 by lra. rewrite Rabs_R0. lra.
Qed.

Lemma lnprior_exp (b : bounds_t) (p : vec) :
  result_map np_exp (lnprior b p) = prior b p.
Proof.
  unfold lnprior, prior.
  destruct (prior_loop b 0 p) as [[|]| |]; cbn [bind result_map];
    try reflexivity.
  - now rewrite np_exp_0.
  - now rewrite np_exp_minus_sentinel.
Qed.

(** X1. The exponential of [lnprior] is [prior]: the values 0.0 and -1e20
    stand for the weights 1.0 and 0.0, and both raise on the same
    vectors. *)
Theorem exp_lnprior_is_prior (b : bounds_t) (p : vec) :
  result_map np_exp (lnprior b p) = prior b p.
Proof. apply lnprior_exp. Qed.

Lemma prior_Extractor_p : prior Extractor_bounds Extractor_p = Ok (Fin 1).
Proof.
  unfold prior, Extractor_p, Extractor_bounds; simpl.
  unfold fgt, flt; simpl. rcmp. reflexivity.
Qed.

Lemma lnprior_Extractor_p : lnprior Extractor_bounds Extractor_p = Ok (Fin 0).
Proof.
  unfold lnprior, Extractor_p, Extractor_bounds; simpl.
  unfold fgt, flt; simpl. rcmp. reflexivity.
Qed.

Section DensityFacts.

Context {E : External}.

Lemma lnprob_inv (self : Extractor_MCMC) (p : vec) (s : proc)
    (v : float64) (s' : proc) :
  lnprob self p s = Ok (v, s') ->
  chisq_calls s' = chisq_calls s ++ [p] /\
  exists lp,
    lnprior (bounds self) p = Ok lp /\
    (lp = Fin 0 \/ lp = Fin (-1e20)) /\
    v = fadd lp (fmul (Fin (-0.5)) (chisq self p)).
Proof.
  unfold lnprob, lnprior, lnlike, call_chisq.
  destruct (prior_loop (bounds self) 0 p) as [[|]| |]; cbn [bind isfinite negb];
    intros H; try discriminate; injection H as <- <-; cbn [chisq_calls];
    (split; [reflexivity|]); eexists; (split; [reflexivity|]); auto.
Qed.

(** X2. The test [not np.isfinite(lp)] of [lnprob] never holds: when
    [lnprob] returns it has called [self.chisq] once, on vectors outside
    the bounds too, and its value is [lnprior(p) - 0.5 * chisq(p)], where
    [lnprior(p)] is 0.0 or -1e20. *)
Theorem lnprob_always_calls_chisq (self : Extractor_MCMC) (p : vec) (s : proc)
    (v : float64) (s' : proc) :
  lnprob self p s = Ok (v, s') ->
  chisq_calls s' = chisq_calls s ++ [p] /\
  exists lp,
    lnprior (bounds self) p = Ok lp /\
    (lp = Fin 0 \/ lp = Fin (-1e20)) /\
    v = fadd lp (fmul (Fin (-0.5)) (chisq self p)).
Proof. apply lnprob_inv. Qed.

Lemma posterior_inv (self : Extractor_MCMC) (p : vec) (s : proc)
    (v : float64) (s' : proc) :
  posterior self p s = Ok (v, s') ->
  (prior (bounds self) p = Ok (Fin 0) /\ v = Fin 0 /\ s' = s) \/
  (prior (bounds self) p = Ok (Fin 1) /\
   v = np_exp (fmul (Fin (-0.5)) (chisq self p)) /\
   chisq_calls s' = chisq_calls s ++ [p] /\
   chains_file s' = chains_file s /\ draws s' = draws s).
Proof.
  unfold posterior.
  destruct (prior (bounds self) p) as [x| |] eqn:Hp; cbn [bind];
    try discriminate.
  destruct (prior_values _ _ _ Hp) as [-> | ->].
  - rewrite np_isclose_1_0. unfold likelihood, call_chisq.
    intros H; injection H as <- <-. right.
    split; [reflexivity|]. split; [exact (fmul_1_l _)|]. now repeat split.
  - rewrite np_isclose_0_0. intros H; injection H as <- <-. left.
    now repeat split.
Qed.

(** X3. [posterior] is 0.0, without a call of [self.chisq], on a vector
    of prior weight 0.0, and [np.exp(-0.5 * chisq(p))], with one call, on
    a vector of prior weight 1.0. *)
Theorem posterior_cases (self : Extractor_MCMC) (p : vec) (s : proc)
    (v : float64) (s' : proc) :
  posterior self p s = Ok (v, s') ->
  (prior (bounds self) p = Ok (Fin 0) /\ v = Fin 0 /\ s' = s) \/
  (prior (bounds self) p = Ok (Fin 1) /\
   v = np_exp (fmul (Fin (-0.5)) (chisq self p)) /\
   chisq_calls s' = chisq_calls s ++ [p] /\
   chains_file s' = chains_file s /\ draws s' = draws s).
Proof. apply posterior_inv. Qed.

(** [posterior] returns whenever [prior] does. *)
Lemma posterior_returns (self : Extractor_MCMC) (p : vec) (s : proc) x :
  prior (bounds self) p = Ok x -> exists v s', posterior self p s = Ok (v, s').
Proof.
  intros Hp. unfold posterior. rewrite Hp. cbn [bind].
  destruct (np_isclose x (Fin 0)); [now eexists; eexists|].
  unfold likelihood, call_chisq. now eexists; eexists.
Qed.

(** X4. The likelihood [L2 = np.exp(-0.5 * chisq2)] that an iteration of the
    walk gives its candidate (line 295) is the value of [posterior] on
    that candidate: the sentinel cost of a candidate outside the bounds
    underflows to the 0.0 that [posterior] returns. *)
Theorem walk_likelihood_is_posterior (self : Extractor_MCMC)
    (w : walker) (c : Chain) (s s0 : proc) :
  candidate_fits self w c s ->
  exists chisq2 s',
    step_cost self w c s = Ok chisq2 /\
    posterior self (step_candidate w c s) s0
    = Ok (np_exp (fmul (Fin (-0.5)) chisq2), s').
Proof.
  intros [Hlo Hhi]. unfold step_cost.
  pose proof (prior_none_outside _ _ Hlo Hhi) as Hp.
  destruct (posterior_returns self (step_candidate w c s) s0 _ Hp)
    as (v & s' & Hpost).
  rewrite Hp. cbn [bind].
  destruct (posterior_inv _ _ _ _ _ Hpost)
    as [(Hp0 & -> & ->) | (Hp1 & -> & _)].
  - rewrite Hp0 in Hp. injection Hp as Hp. rewrite <- Hp, fgt_zero_threshold.
    eexists; eexists. split; [reflexivity|]. rewrite Hpost. do 2 f_equal.
    symmetry. simpl. apply np_exp_underflows. lra.
  - rewrite Hp1 in Hp. injection Hp as Hp. rewrite <- Hp, fgt_one_threshold.
    eexists; eexists. split; [reflexivity | exact Hpost].
Qed.

(** The exponential of a cost that is not negative lies in [0, 1]. *)
Lemma np_exp_cost_range c :
  fle (Fin 0) c = true ->
  exists y, np_exp (fmul (Fin (-0.5)) c) = Fin y /\ 0 <= y <= 1.
Proof.
  destruct c as [x| | |]; simpl; try discriminate; intros H.
  - apply Rleb_true in H. unfold np_exp.
    assert (Hx : exp (-0.5 * x) <= 1).
    { rewrite <- exp_0. destruct H as [H | <-].
      - left. apply exp_increasing. lra.
      - right. f_equal. lra. }
    pose proof (exp_pos (-0.5 * x)). pose proof f64_overflow_gt_1.
    destruct (Rleb (exp (-0.5 * x)) f64_underflow);
      [exists 0; split; [reflexivity | lra]|].
    replace (Rleb f64_overflow (exp (-0.5 * x))) with false
      by (symmetry; apply Rleb_false; lra).
    eexists. split; [reflexivity | lra].
  - unfold scale_inf. rcmp. exists 0. split; [reflexivity | lra].
Qed.

(** X5. On a cost that is not negative, [posterior] is a number of
    [0, 1]. *)
Theorem posterior_range (self : Extractor_MCMC) (p : vec) (s : proc)
    (v : float64) (s' : proc) :
  fle (Fin 0) (chisq self p) = true ->
  posterior self p s = Ok (v, s') ->
  fle (Fin 0) v = true /\ fle v (Fin 1) = true.
Proof.
  intros Hc Hpost.
  destruct (posterior_inv _ _ _ _ _ Hpost) as [(_ & -> & _) | (_ & -> & _)].
  - simpl. split; apply Rleb_true; lra.
  - destruct (np_exp_cost_range _ Hc) as (y & -> & Hy).
    simpl. split; apply Rleb_true; lra.
Qed.

(** X6. On a cost that is not negative, the exponential of [lnprob] is
    [posterior], within and outside the bounds. *)
Theorem exp_lnprob_is_posterior (self : Extractor_MCMC) (p : vec) (s : proc)
    (l q : float64) (s1 s2 : proc) :
  fle (Fin 0) (chisq self p) = true ->
  lnprob self p s = Ok (l, s1) ->
  posterior self p s = Ok (q, s2) ->
  np_exp l = q.
Proof.
  intros Hc Hl Hq.
  apply lnprob_inv in Hl as (_ & lp & Hlp & _ & ->).
  pose proof (lnprior_exp (bounds self) p) as Hexp.
  rewrite Hlp in Hexp. cbn [result_map] in Hexp.
  destruct (posterior_inv _ _ _ _ _ Hq) as [(Hp & -> & _) | (Hp & -> & _)];
    rewrite Hp in Hexp; injection Hexp as Hexp;
    unfold lnprior in Hlp;
    destruct (prior_loop (bounds self) 0 p) as [[|]| |]; cbn [bind] in Hlp;
    try discriminate; injection Hlp as <-.
  - rewrite np_exp_0 in Hexp. injection Hexp as Hexp. lra.
  - destruct (chisq self p) as [x| | |]; simpl in Hc |- *; try discriminate.
    + apply Rleb_true in Hc. apply np_exp_underflows. lra.
    + unfold scale_inf. rcmp. reflexivity.
  - destruct (chisq self p) as [x| | |]; simpl in Hc |- *; try discriminate.
    + do 2 f_equal. lra.
    + unfold scale_inf. rcmp. reflexivity.
  - rewrite np_exp_minus_sentinel in Hexp. injection Hexp as Hexp. lra.
Qed.

End DensityFacts.

Lemma toy_lnprob_returns :
  exists v s',
    @lnprob (toy_external 1) (toy_self 1 (fun _ => Fin 1)) Extractor_p
       (toy_proc 1 0) = Ok (v, s').
Proof.
  unfold lnprob. change (bounds (toy_self 1 (fun _ => Fin 1))) with Extractor_bounds.
  rewrite lnprior_Extractor_p. cbn [bind isfinite negb].
  unfold lnlike, call_chisq. now eexists; eexists.
Qed.

Lemma toy_posterior_returns :
  exists v s',
    @posterior (toy_external 1) (toy_self 1 (fun _ => Fin 1)) Extractor_p
       (toy_proc 1 0) = Ok (v, s').
Proof.
  exact (@posterior_returns (toy_external 1) (toy_self 1 (fun _ => Fin 1))
           Extractor_p (toy_proc 1 0) (Fin 1) prior_Extractor_p).
Qed.

Lemma lnprob_always_calls_chisq_witness :
  exists v s',
    @lnprob (toy_external 1) (toy_self 1 (fun _ => Fin 1)) Extractor_p
       (toy_proc 1 0) = Ok (v, s') /\
    chisq_calls s' = [Extractor_p].
Proof.
  destruct toy_lnprob_returns as (v & s' & H).
  exists v, s'. split; [exact H|].
  exact (proj1 (@lnprob_always_calls_chisq (toy_external 1) _ _ _ _ _ H)).
Defined.

Lemma posterior_cases_witness :
  exists v s',
    @posterior (toy_external 1) (toy_self 1 (fun _ => Fin 1)) Extractor_p
       (toy_proc 1 0) = Ok (v, s') /\
    v = np_exp (fmul (Fin (-0.5)) (Fin 1)).
Proof.
  destruct toy_posterior_returns as (v & s' & H).
  exists v, s'. split; [exact H|].
  destruct (@posterior_cases (toy_external 1) _ _ _ _ _ H)
    as [(Hp & _) | (_ & Hv & _)]; [|exact Hv].
  change (bounds (toy_self 1 (fun _ => Fin 1))) with Extractor_bounds in Hp.
  rewrite prior_Extractor_p in Hp. injection Hp as Hp. lra.
Defined.

Lemma walk_likelihood_is_posterior_witness :
  exists chisq2 s',
    @step_cost (toy_external (-2)) (toy_self (-2) (fun _ => Fin 1))
       (toy_walker (Fin 1)) (toy_chain (-2) 0) (toy_proc (-2) 0) = Ok chisq2 /\
    @posterior (toy_external (-2)) (toy_self (-2) (fun _ => Fin 1))
       (toy_draw (-2) Extractor_p) (toy_proc (-2) 0)
    = Ok (np_exp (fmul (Fin (-0.5)) chisq2), s').
Proof.
  exact (@walk_likelihood_is_posterior (toy_external (-2)) _ _ _ _ _
           (toy_candidate_fits (-2) _ _ 0 0%nat)).
Defined.

Lemma toy_cost_not_negative : fle (Fin 0) (Fin 1) = true.
Proof. simpl. apply Rleb_true. lra. Qed.

Lemma posterior_range_witness :
  exists v s',
    @posterior (toy_external 1) (toy_self 1 (fun _ => Fin 1)) Extractor_p
       (toy_proc 1 0) = Ok (v, s') /\
    fle (Fin 0) v = true /\ fle v (Fin 1) = true.
Proof.
  destruct toy_posterior_returns as (v & s' & H).
  exists v, s'. split; [exact H|].
  exact (@posterior_range (toy_external 1) (toy_self 1 (fun _ => Fin 1))
           Extractor_p (toy_proc 1 0) v s' toy_cost_not_negative H).
Defined.

Lemma exp_lnprob_is_posterior_witness :
  exists l q s1 s2,
    @lnprob (toy_external 1) (toy_self 1 (fun _ => Fin 1)) Extractor_p
       (toy_proc 1 0) = Ok (l, s1) /\
    @posterior (toy_external 1) (toy_self 1 (fun _ => Fin 1)) Extractor_p
       (toy_proc 1 0) = Ok (q, s2) /\
    np_exp l = q.
Proof.
  destruct toy_lnprob_returns as (l & s1 & Hl).
  destruct toy_posterior_returns as (q & s2 & Hq).
  exists l, q, s1, s2. split; [exact Hl|]. split; [exact Hq|].
  exact (@exp_lnprob_is_posterior (toy_external 1)
           (toy_self 1 (fun _ => Fin 1)) Extractor_p (toy_proc 1 0)
           l q s1 s2 toy_cost_not_negative Hl Hq).
Defined.

(** ** [Extractor.chisq] *)

Lemma fsqr_not_negative a : flt (fsqr a) (Fin 0) = false.
Proof.
  destruct a as [x| | |]; simpl; try reflexivity.
  apply Rltb_false. nra.
Qed.

Lemma fadd_not_negative a b :
  flt a (Fin 0) = false -> flt b (Fin 0) = false ->
  flt (fadd a b) (Fin 0) = false.
Proof.
  destruct a as [x| | |], b as [y| | |]; simpl; try easy.
  intros Hx%Rltb_false Hy%Rltb_false. apply Rltb_false. lra.
Qed.

Lemma fdiv_not_negative a b :
  flt a (Fin 0) = false -> flt b (Fin 0) = false ->
  flt (fdiv a b) (Fin 0) = false.
Proof.
  destruct a as [x| | |], b as [y| | |]; simpl; try easy.
  - intros Hx%Rltb_false Hy%Rltb_false.
    destruct (Rltb 0 y) eqn:H0; simpl.
    + apply Rltb_true in H0. apply Rltb_false.
      apply Rmult_le_pos; [lra|]. left. now apply Rinv_0_lt_compat.
    + replace (Rltb y 0) with false by (symmetry; apply Rltb_false; lra).
      unfold scale_inf. destruct (Rltb 0 x) eqn:Hx0; [reflexivity|].
      replace (Rltb x 0) with false by (symmetry; apply Rltb_false; lra).
      reflexivity.
  - intros _ _. apply Rltb_false. lra.
  - intros _ Hy%Rltb_false.
    replace (Rltb y 0) with false by (symmetry; apply Rltb_false; lra).
    reflexivity.
Qed.

(** What holds of the elements holds of the result of an operation on
    two arrays. *)
Lemma broadcast2_Forall (P Q T : float64 -> Prop) f a b l :
  (forall x y, P x -> Q y -> T (f x y)) ->
  Forall P a -> Forall Q b ->
  broadcast2 f a b = Ok l -> Forall T l.
Proof.
  intros Hf Ha Hb. unfold broadcast2.
  assert (Hzip : Forall T (map (fun xy => f (fst xy) (snd xy)) (combine a b))).
  { clear -Hf Ha Hb. revert b Hb.
    induction Ha as [|x a Hx Ha IH]; intros b Hb; [constructor|].
    destruct Hb as [|y b Hy Hb]; [constructor|].
    cbn. constructor; [now apply Hf | now apply IH]. }
  assert (Hleft : forall x, P x -> Forall T (map (f x) b)).
  { intros x Hx. apply Forall_map. eapply Forall_impl; [|exact Hb].
    intros y Hy. now apply Hf. }
  assert (Hright : forall y, Q y -> Forall T (map (fun x => f x y) a)).
  { intros y Hy. apply Forall_map. eapply Forall_impl; [|exact Ha].
    intros x Hx. now apply Hf. }
  destruct (length a =? length b)%nat.
  - intros H; now injection H as <-.
  - destruct a as [|x [|x' a]].
    + destruct b as [|y [|y' b]]; intros H; try discriminate.
      injection H as <-. constructor.
    + intros H; injection H as <-. apply Hleft. now inversion Ha.
    + destruct b as [|y [|y' b]]; intros H; try discriminate.
      injection H as <-. apply (Hright y). now inversion Hb.
Qed.

Lemma np_sum_not_negative l : forall acc,
  flt acc (Fin 0) = false ->
  Forall (fun a => flt a (Fin 0) = false) l ->
  flt (fold_left fadd l acc) (Fin 0) = false.
Proof.
  induction l as [|a l IH]; intros acc Hacc Hl; cbn; [exact Hacc|].
  inversion Hl; subst. apply IH; [now apply fadd_not_negative | assumption].
Qed.

Lemma Forall_fsqr l : Forall (fun a => flt a (Fin 0) = false) (map fsqr l).
Proof. apply Forall_map, Forall_forall. intros a _. apply fsqr_not_negative. Qed.

Lemma np_sum_zeros l : Forall (fun a => a = Fin 0) l -> np_sum l = Fin 0.
Proof.
  unfold np_sum. induction 1 as [|a l -> _ IH]; cbn; [reflexivity|].
  replace (Fin (0 + 0)) with (Fin 0) by (f_equal; lra). exact IH.
Qed.

Lemma diff_of_equal l :
  Forall (fun a => isfinite a = true) l ->
  Forall (fun a => a = Fin 0)
         (map (fun xy => fsub (fst xy) (snd xy)) (combine l l)).
Proof.
  induction 1 as [|a l Ha _ IH]; cbn; [constructor|].
  constructor; [|exact IH].
  destruct a as [x| | |]; try discriminate. cbn. f_equal. lra.
Qed.

Section ChisqFacts.

Context {E : External}.

(** X7. [Extractor.chisq] is never negative: whatever the arrays hold,
    the value it returns is a number that is not below 0, [+inf] or NaN. *)
Theorem chisq_not_negative (self : Extractor_MCMC) (spectrum_err : list float64)
    (p : vec) (c : float64) :
  Extractor_chisq self spectrum_err p = Ok c ->
  flt c (Fin 0) = false.
Proof.
  unfold Extractor_chisq. destruct (simulation self p) as [model err].
  destruct (broadcast2 fsub model (spectrum_data self)) as [diff| |];
    cbn [bind]; try discriminate.
  destruct (broadcast2 fadd (map fsqr err) (map fsqr spectrum_err))
    as [den| |] eqn:Hden; cbn [bind]; try discriminate.
  destruct (broadcast2 fdiv (map fsqr diff) den) as [terms| |] eqn:Hterms;
    cbn [bind]; try discriminate.
  intros H; injection H as <-.
  apply np_sum_not_negative; [simpl; apply Rltb_false; lra|].
  pose (nn := fun a : float64 => flt a (Fin 0) = false).
  apply (broadcast2_Forall nn nn nn fadd (map fsqr err) (map fsqr spectrum_err)
           den fadd_not_negative (Forall_fsqr err) (Forall_fsqr spectrum_err))
    in Hden.
  exact (broadcast2_Forall nn nn nn fdiv (map fsqr diff) den terms
           fdiv_not_negative (Forall_fsqr diff) Hden Hterms).
Qed.

(** X8. [Extractor.chisq] is exactly 0.0 on a simulated model that equals
    finite data, whenever every denominator
    [err ** 2 + self.spectrum.err ** 2] is positive. *)
Theorem chisq_perfect_fit (self : Extractor_MCMC) (spectrum_err : list float64)
    (p : vec) (den : list float64) (c : float64) :
  fst (simulation self p) = spectrum_data self ->
  Forall (fun a => isfinite a = true) (spectrum_data self) ->
  chisq_denominators self spectrum_err p = Ok den ->
  Forall (fun d => fgt d (Fin 0) = true) den ->
  Extractor_chisq self spectrum_err p = Ok c ->
  c = Fin 0.
Proof.
  unfold Extractor_chisq, chisq_denominators.
  destruct (simulation self p) as [model err]. cbn [fst snd].
  intros -> Hfin Hden Hpos. rewrite Hden.
  unfold broadcast2 at 1. rewrite Nat.eqb_refl. cbn [bind].
  destruct (broadcast2 fdiv _ den) as [terms| |] eqn:Hterms; cbn [bind];
    try discriminate.
  intros H; injection H as <-. apply np_sum_zeros.
  apply (broadcast2_Forall (fun a => a = Fin 0)
           (fun d => fgt d (Fin 0) = true) (fun a => a = Fin 0)) in Hterms;
    [exact Hterms | | | exact Hpos].
  - intros x y -> Hy. destruct y as [d| | |]; try discriminate.
    + unfold fgt in Hy; simpl in Hy. simpl. rewrite Hy. simpl. f_equal.
      unfold Rdiv. lra.
    + reflexivity.
  - apply Forall_map. eapply Forall_impl; [|exact (diff_of_equal _ Hfin)].
    intros a ->. unfold fsqr. simpl. f_equal. lra.
Qed.

End ChisqFacts.

Lemma toy_chisq_returns :
  exists c, @Extractor_chisq (toy_external 1) (toy_self 1 amplitude_cost)
              [Fin 0; Fin 1] Extractor_p = Ok c.
Proof. unfold Extractor_chisq. cbn. now eexists. Qed.

Lemma chisq_not_negative_witness :
  exists c, @Extractor_chisq (toy_external 1) (toy_self 1 amplitude_cost)
              [Fin 0; Fin 1] Extractor_p = Ok c /\
            flt c (Fin 0) = false.
Proof.
  destruct toy_chisq_returns as (c & H). exists c. split; [exact H|].
  exact (@chisq_not_negative (toy_external 1) _ _ _ _ H).
Defined.

Lemma toy_fit_denominators :
  exists den,
    @chisq_denominators (toy_external 1) toy_self_fit [Fin 1; Fin 1] Extractor_p
    = Ok den /\
    Forall (fun d => fgt d (Fin 0) = true) den.
Proof.
  unfold chisq_denominators. cbn. eexists. split; [reflexivity|].
  repeat constructor; unfold fgt; simpl; apply Rltb_true; lra.
Qed.

Lemma toy_fit_returns :
  exists c, @Extractor_chisq (toy_external 1) toy_self_fit [Fin 1; Fin 1]
              Extractor_p = Ok c.
Proof. unfold Extractor_chisq. cbn. now eexists. Qed.

Lemma chisq_perfect_fit_witness :
  @Extractor_chisq (toy_external 1) toy_self_fit [Fin 1; Fin 1] Extractor_p
  = Ok (Fin 0).
Proof.
  destruct toy_fit_denominators as (den & Hden & Hpos).
  destruct toy_fit_returns as (c & Hc).
  rewrite Hc. f_equal.
  apply (@chisq_perfect_fit (toy_external 1) toy_self_fit [Fin 1; Fin 1]
           Extractor_p den c eq_refl); try assumption.
  repeat constructor.
Defined.

(** ** [Extractor.get_truth] *)

Section TruthFacts.

Variable V : Type.

Lemma has_key_header_get (k : String.string) (h : header_t V) :
  has_key V k h = true -> exists v, header_get V k h = Some v.
Proof.
  unfold has_key, header_get. induction h as [|[k' v'] h IH]; cbn;
    [discriminate|].
  destruct (String.eqb k k'); cbn; [now eexists | exact IH].
Qed.

Lemma assigned_if_some (k : String.string) (h : header_t V) :
  has_key V k h = true -> exists v, assigned_if V k h = Some v /\ header_get V k h = Some v.
Proof.
  intros Hk. unfold assigned_if. rewrite Hk.
  destruct (has_key_header_get k h Hk) as (v & Hv). now exists v.
Qed.

Lemma assigned_if_none (k : String.string) (h : header_t V) :
  has_key V k h = false -> assigned_if V k h = None.
Proof. intros Hk. unfold assigned_if. now rewrite Hk. Qed.

(** X9. [get_truth] sets [self.truth] to [None] exactly when the header
    has no keyword A1, whatever else it holds. *)
Theorem get_truth_none (h : header_t V) :
  get_truth V h = TruthSet None <-> has_key V "A1"%string h = false.
Proof.
  unfold get_truth. destruct (has_key V "A1"%string h) eqn:H1.
  - split; [|discriminate]. intros H. exfalso. revert H.
    unfold load.
    destruct (header_get V "A1"%string h); [|discriminate].
    destruct (assigned_if V "A2"%string h); [|discriminate].
    destruct (assigned_if V "OZONE"%string h); [|discriminate].
    destruct (assigned_if V "PWV"%string h); [|discriminate].
    destruct (assigned_if V "VAOD"%string h); [|discriminate].
    destruct (assigned_if V "RESO"%string h); discriminate.
  - split; reflexivity.
Qed.

(** X10. With the keyword A1 in the header, [get_truth] sets the tuple
    of the six header values followed by two [None] when A2, OZONE, PWV,
    VAOD and RESO are all there; when one of them is missing it raises
    UnboundLocalError on the local variable of a missing keyword. *)
Theorem get_truth_needs_all_keys (h : header_t V) :
  has_key V "A1"%string h = true ->
  (forallb (fun k => has_key V k h) truth_keys = true ->
   exists a1 a2 oz pw ae re,
     header_get V "A1"%string h = Some a1 /\
     header_get V "A2"%string h = Some a2 /\
     header_get V "OZONE"%string h = Some oz /\
     header_get V "PWV"%string h = Some pw /\
     header_get V "VAOD"%string h = Some ae /\
     header_get V "RESO"%string h = Some re /\
     get_truth V h
     = TruthSet (Some [Some a1; Some a2; Some oz; Some pw; Some ae; Some re;
                       None; None])) /\
  (forallb (fun k => has_key V k h) truth_keys = false ->
   exists name, In name truth_locals /\ get_truth V h = UnboundLocalError name).
Proof.
  intros H1. unfold get_truth. rewrite H1.
  destruct (has_key_header_get _ _ H1) as (a1 & Ha1). rewrite Ha1.
  unfold truth_keys, truth_locals. cbn [forallb load].
  destruct (has_key V "A2"%string h) eqn:H2;
    [destruct (assigned_if_some _ _ H2) as (a2 & -> & Hg2)
    | rewrite (assigned_if_none _ _ H2)];
  (destruct (has_key V "OZONE"%string h) eqn:H3;
    [destruct (assigned_if_some _ _ H3) as (oz & -> & Hg3)
    | rewrite (assigned_if_none _ _ H3)]);
  (destruct (has_key V "PWV"%string h) eqn:H4;
    [destruct (assigned_if_some _ _ H4) as (pw & -> & Hg4)
    | rewrite (assigned_if_none _ _ H4)]);
  (destruct (has_key V "VAOD"%string h) eqn:H5;
    [destruct (assigned_if_some _ _ H5) as (ae & -> & Hg5)
    | rewrite (assigned_if_none _ _ H5)]);
  (destruct (has_key V "RESO"%string h) eqn:H6;
    [destruct (assigned_if_some _ _ H6) as (re & -> & Hg6)
    | rewrite (assigned_if_none _ _ H6)]);
  cbn [andb load]; (split; [intros Hall; try discriminate | intros Hnot; try discriminate]).
  all: try (exists a1, a2, oz, pw, ae, re; now repeat split).
  all: eexists; (split; [|reflexivity]); cbn; tauto.
Qed.

End TruthFacts.

Lemma get_truth_needs_all_keys_witness :
  get_truth nat toy_header
  = TruthSet (Some [Some 2%nat; Some 3%nat; Some 4%nat; Some 5%nat;
                    Some 6%nat; Some 7%nat; None; None]) /\
  exists name, In name truth_locals /\
               get_truth nat toy_header_short = UnboundLocalError name.
Proof.
  split.
  - destruct (get_truth_needs_all_keys nat toy_header eq_refl) as [Hall _].
    destruct (Hall eq_refl) as (a1 & a2 & oz & pw & ae & re & H1 & H2 & H3 & H4 & H5 & H6 & Ht).
    cbn in H1, H2, H3, H4, H5, H6.
    injection H1 as <-; injection H2 as <-; injection H3 as <-;
    injection H4 as <-; injection H5 as <-; injection H6 as <-.
    exact Ht.
  - destruct (get_truth_needs_all_keys nat toy_header_short eq_refl) as [_ Hnot].
    exact (Hnot eq_refl).
Defined.

(** ** [Extractor.__init__]: the errors of the spectrum *)

Lemma feq_0_1 : feq (Fin 0) (Fin 1) = false.
Proof. simpl. unfold Reqb. destruct (Req_dec_T 0 1); [lra | reflexivity]. Qed.

Lemma existsb_ones (l : list float64) :
  existsb (feq (Fin 0)) (map (fun _ => Fin 1) l) = false.
Proof.
  induction l; cbn [map existsb]; [reflexivity|]. now rewrite feq_0_1.
Qed.

(** X11. After lines 51-52 no entry of [self.spectrum.err] equals 0 and
    the array has kept its length; an array without a zero is left as it
    is, an array with one zero loses all its entries to 1.0, and doing
    the lines twice changes nothing more. *)
Theorem fix_err_has_no_zero (err : list float64) :
  existsb (feq (Fin 0)) (Extractor_fix_err err) = false /\
  length (Extractor_fix_err err) = length err /\
  (existsb (feq (Fin 0)) err = false -> Extractor_fix_err err = err) /\
  (existsb (feq (Fin 0)) err = true ->
   Forall (fun a => a = Fin 1) (Extractor_fix_err err)) /\
  Extractor_fix_err (Extractor_fix_err err) = Extractor_fix_err err.
Proof.
  unfold Extractor_fix_err at 1 2 3 4.
  destruct (existsb (feq (Fin 0)) err) eqn:Hz.
  - split; [apply existsb_ones|]. split; [apply length_map|].
    split; [discriminate|]. split.
    + intros _. apply Forall_map, Forall_forall. reflexivity.
    + assert (Hones : Extractor_fix_err err = map (fun _ => Fin 1) err)
        by (unfold Extractor_fix_err; now rewrite Hz).
      rewrite Hones. unfold Extractor_fix_err. now rewrite existsb_ones.
  - split; [exact Hz|]. split; [reflexivity|]. split; [reflexivity|].
    split; [discriminate|].
    assert (Hid : Extractor_fix_err err = err)
      by (unfold Extractor_fix_err; now rewrite Hz).
    now rewrite !Hid.
Qed.

(** ** [prior] on vectors of another dimension *)

Lemma prior_loop_true_fits b p : forall npar,
  prior_loop b npar p = Ok true ->
  p = [] \/
  ((npar + length p <= length (fst b))%nat /\
   (npar + length p <= length (snd b))%nat).
Proof.
  induction p as [|par rest IH]; intros npar H; [now left|]. right.
  cbn [prior_loop] in H. unfold getitem in H.
  destruct (nth_error (fst b) npar) eqn:Hlo; cbn [bind] in H; [|discriminate].
  destruct (flt par f); [discriminate|].
  destruct (nth_error (snd b) npar) eqn:Hhi; cbn [bind] in H; [|discriminate].
  destruct (fgt par f0); [discriminate|].
  assert (Hl : (npar < length (fst b))%nat)
    by (apply nth_error_Some; congruence).
  assert (Hh : (npar < length (snd b))%nat)
    by (apply nth_error_Some; congruence).
  destruct (IH _ H) as [-> | [H1 H2]]; cbn; lia.
Qed.

Lemma prior_loop_raises b p : forall npar e,
  prior_loop b npar p = Raise e -> e = IndexError.
Proof.
  induction p as [|par rest IH]; intros npar e H; [discriminate|].
  cbn [prior_loop] in H. unfold getitem in H.
  destruct (nth_error (fst b) npar); cbn [bind] in H;
    [|now injection H as <-].
  destruct (flt par f); [discriminate|].
  destruct (nth_error (snd b) npar); cbn [bind] in H;
    [|now injection H as <-].
  destruct (fgt par f0); [discriminate|].
  now apply (IH _ _ H).
Qed.

Lemma prior_loop_fuel b p : forall npar, prior_loop b npar p <> OutOfFuel.
Proof.
  induction p as [|par rest IH]; intros npar; [discriminate|].
  cbn [prior_loop]. unfold getitem.
  destruct (nth_error (fst b) npar); cbn [bind]; [|discriminate].
  destruct (flt par f); [discriminate|].
  destruct (nth_error (snd b) npar); cbn [bind]; [|discriminate].
  destruct (fgt par f0); [discriminate | apply IH].
Qed.

(** X12. [prior] returns 1.0 exactly on the vectors that are no longer
    than the two tuples of bounds and have no component outside them; on
    a vector that is longer than a tuple it returns 0.0 or raises
    IndexError, and it never does anything else. *)
Theorem prior_on_any_dimension (b : bounds_t) (p : vec) :
  (prior b p = Ok (Fin 1) <->
   (length p <= length (fst b))%nat /\ (length p <= length (snd b))%nat /\
   none_outside b p = true) /\
  (prior b p = Ok (Fin 1) \/ prior b p = Ok (Fin 0) \/
   prior b p = Raise IndexError) /\
  ((length (fst b) < length p)%nat \/ (length (snd b) < length p)%nat ->
   prior b p = Ok (Fin 0) \/ prior b p = Raise IndexError).
Proof.
  assert (H1 : prior b p = Ok (Fin 1) ->
               (length p <= length (fst b))%nat /\
               (length p <= length (snd b))%nat).
  { unfold prior.
    destruct (prior_loop b 0 p) as [[|]| |] eqn:Hl; cbn [bind];
      intros H; try discriminate.
    - destruct (prior_loop_true_fits _ _ _ Hl) as [-> | [? ?]]; cbn; lia.
    - injection H as H. lra. }
  assert (H3 : prior b p = Ok (Fin 1) \/ prior b p = Ok (Fin 0) \/
               prior b p = Raise IndexError).
  { unfold prior.
    destruct (prior_loop b 0 p) as [[|]|e|] eqn:Hl; cbn [bind]; auto.
    - right; right. now rewrite (prior_loop_raises _ _ _ _ Hl).
    - now destruct (prior_loop_fuel b p 0). }
  split; [|split; [exact H3|]].
  - split.
    + intros H. destruct (H1 H) as [Hlo Hhi]. repeat split; try assumption.
      rewrite (prior_none_outside b p Hlo Hhi) in H.
      destruct (none_outside b p); [reflexivity|].
      injection H as H. lra.
    + intros (Hlo & Hhi & Hn).
      now rewrite (prior_none_outside b p Hlo Hhi), Hn.
  - intros Hlong. destruct H3 as [H | H]; [|exact H].
    destruct (H1 H). lia.
Qed.

(** * More properties of the walk *)

Lemma prior_one_none_outside b p :
  prior b p = Ok (Fin 1) -> none_outside b p = true.
Proof.
  intros H.
  assert (Hfit : (length p <= length (fst b))%nat /\
                 (length p <= length (snd b))%nat).
  { revert H. unfold prior.
    destruct (prior_loop b 0 p) as [[|]| |] eqn:Hl; cbn [bind];
      intros H; try discriminate.
    - destruct (prior_loop_true_fits _ _ _ Hl) as [-> | [? ?]]; cbn; lia.
    - injection H as H. lra. }
  destruct Hfit as [Hlo Hhi].
  rewrite (prior_none_outside b p Hlo Hhi) in H.
  destruct (none_outside b p); [reflexivity|]. injection H as H. lra.
Qed.

Lemma below_sentinel_cases a :
  below_sentinel a = true ->
  fle a (Fin (1e20 - 2150)) = true \/ is_nan a = true.
Proof. unfold below_sentinel. now intros H%orb_true_iff. Qed.

Section WalkFacts.

Context {E : External}.

(** What an iteration that returns has added to the records. *)
Lemma mcmc_step_records (self : Extractor_MCMC) i w c s w' c' s' :
  mcmc_step self i (w, c, s) = Ok (w', c', s') ->
  exists prior2,
    prior (bounds self) (step_candidate w c s) = Ok prior2 /\
    draws s' = draws s ++ [Proposal (step_candidate w c s);
                           Uniform (step_uniform w c s)] /\
    chisq_calls s' = chisq_calls s ++
      (if fgt prior2 (Fin 1e-10) then [step_candidate w c s] else []) /\
    w' = (if metropolis_test (chisq1 w)
               (if fgt prior2 (Fin 1e-10) then chisq self (step_candidate w c s)
                else Fin 1e20)
               (step_uniform w c s)
          then {| vec1 := step_candidate w c s;
                  chisq1 := if fgt prior2 (Fin 1e-10)
                            then chisq self (step_candidate w c s) else Fin 1e20;
                  L1 := np_exp (fmul (Fin (-0.5))
                          (if fgt prior2 (Fin 1e-10)
                           then chisq self (step_candidate w c s) else Fin 1e20)) |}
          else w) /\
    proposal_cov c' = (if (i >? exploration_time self)%Z
                       then update_proposal_cov (proposal_cov c) (vec1 w')
                       else proposal_cov c).
Proof.
  unfold mcmc_step, call_draw_vector, step_candidate, step_uniform.
  destruct (draw_vector (proposal_cov c) (vec1 w) (np_random s)) as [vec2 g1].
  cbn [fst snd].
  destruct (prior (bounds self) vec2) as [prior2| |]; cbn [bind]; try discriminate.
  unfold candidate_cost, call_chisq, call_uniform.
  intros H. exists prior2. split; [reflexivity|]. revert H.
  destruct (fgt prior2 (Fin 1e-10)); cbn [np_random];
    destruct (np_random_uniform g1) as [r g2]; cbn [fst];
    unfold decide;
    match goal with
    | |- context [metropolis_test ?a ?b ?u] => destruct (metropolis_test a b u)
    end;
    destruct (i >? exploration_time self)%Z;
    intros H; injection H as <- <- <-;
    cbn [rows nchain nsteps start_index start_key start_vec set_proposal_cov
         newrow chains_file chisq_calls draws vec1 chisq1 proposal_cov
         fst snd];
    rewrite <- ?app_assoc, ?app_nil_r; repeat split; reflexivity.
Qed.

(** An iteration keeps a state that is within the bounds and clear of
    the sentinel. *)
Lemma mcmc_step_within (self : Extractor_MCMC) i w c s w' c' s' :
  (forall g, 0 <= fst (np_random_uniform g)) ->
  (forall v, none_outside (bounds self) v = true ->
             below_sentinel (chisq self v) = true) ->
  none_outside (bounds self) (vec1 w) = true ->
  below_sentinel (chisq1 w) = true ->
  mcmc_step self i (w, c, s) = Ok (w', c', s') ->
  none_outside (bounds self) (vec1 w') = true /\
  below_sentinel (chisq1 w') = true.
Proof.
  intros Hu Hcost Hv Hc Hs.
  apply mcmc_step_records in Hs as (prior2 & Hp & _ & _ & -> & _).
  destruct (prior_values _ _ _ Hp) as [-> | ->].
  - rewrite fgt_one_threshold.
    apply prior_one_none_outside in Hp.
    destruct (metropolis_test _ _ _); cbn [vec1 chisq1]; auto.
  - rewrite fgt_zero_threshold.
    rewrite metropolis_test_sentinel;
      [auto | apply Hu | now apply below_sentinel_cases].
Qed.

Lemma mcmc_loop_within (self : Extractor_MCMC) keys :
  (forall g, 0 <= fst (np_random_uniform g)) ->
  (forall v, none_outside (bounds self) v = true ->
             below_sentinel (chisq self v) = true) ->
  forall w c s w' c' s',
  none_outside (bounds self) (vec1 w) = true ->
  below_sentinel (chisq1 w) = true ->
  mcmc_loop self keys (w, c, s) = Ok (w', c', s') ->
  none_outside (bounds self) (vec1 w') = true /\
  below_sentinel (chisq1 w') = true /\
  exists new,
    rows c' = rows c ++ new /\
    Forall (fun r => none_outside (bounds self) (row_params (snd r)) = true) new.
Proof.
  intros Hu Hcost. induction keys as [|i keys IH]; intros w c s w' c' s' Hv Hc H;
    cbn [mcmc_loop] in H.
  - injection H as <- <- <-. repeat split; try assumption.
    exists []. now rewrite app_nil_r.
  - destruct (mcmc_step self i (w, c, s)) as [[[w1 c1] s1]| |] eqn:Hs;
      cbn [bind] in H; try discriminate.
    destruct (mcmc_step_within self i w c s w1 c1 s1 Hu Hcost Hv Hc Hs)
      as [Hv1 Hc1].
    apply mcmc_step_inv in Hs as (Hr1 & _).
    destruct (IH _ _ _ _ _ _ Hv1 Hc1 H) as (Hv' & Hc' & new & Hr & Hall).
    repeat split; try assumption.
    eexists. rewrite Hr, Hr1, <- app_assoc. split; [reflexivity|].
    constructor; [exact Hv1 | exact Hall].
Qed.

(** X13. The loop keeps the walk within the bounds: when [uniform(0, 1)]
    is never negative and the cost of every vector within the bounds is
    NaN or at most [1e20 - 2150], a loop that starts from such a state
    within the bounds ends in one, and every row it writes carries a
    vector without a component outside the bounds. *)
Theorem walk_stays_within_bounds (self : Extractor_MCMC) (keys : list Z)
    (w : walker) (c : Chain) (s : proc) (w' : walker) (c' : Chain) (s' : proc) :
  (forall g, 0 <= fst (np_random_uniform g)) ->
  (forall v, none_outside (bounds self) v = true ->
             below_sentinel (chisq self v) = true) ->
  none_outside (bounds self) (vec1 w) = true ->
  below_sentinel (chisq1 w) = true ->
  mcmc_loop self keys (w, c, s) = Ok (w', c', s') ->
  none_outside (bounds self) (vec1 w') = true /\
  below_sentinel (chisq1 w') = true /\
  exists new,
    rows c' = rows c ++ new /\
    Forall (fun r => none_outside (bounds self) (row_params (snd r)) = true) new.
Proof. intros Hu Hcost. now apply mcmc_loop_within. Qed.

(** The proposal covariance after a loop whose keys are all within the
    exploration time. *)
Lemma mcmc_loop_explores (self : Extractor_MCMC) keys : forall w c s w' c' s',
  Forall (fun i => (i <= exploration_time self)%Z) keys ->
  mcmc_loop self keys (w, c, s) = Ok (w', c', s') ->
  proposal_cov c' = proposal_cov c.
Proof.
  induction keys as [|i keys IH]; intros w c s w' c' s' Hk H;
    cbn [mcmc_loop] in H.
  - now injection H as <- <- <-.
  - destruct (mcmc_step self i (w, c, s)) as [[[w1 c1] s1]| |] eqn:Hs;
      cbn [bind] in H; try discriminate.
    inversion Hk as [|? ? Hi Hrest]; subst.
    apply mcmc_step_records in Hs as (_ & _ & _ & _ & _ & Hcov).
    destruct (Z.gtb_spec i (exploration_time self)); [lia|].
    rewrite (IH _ _ _ _ _ _ Hrest H). exact Hcov.
Qed.

Lemma mcmc_start_cov (self : Extractor_MCMC) fuel c s w c' s' :
  mcmc_start fuel self c s = Ok (w, c', s') ->
  proposal_cov c' = proposal_cov c.
Proof.
  unfold mcmc_start, first_vector.
  destruct (start_key c =? -1)%Z.
  - destruct (draw_first fuel self c _) as [[v s1]| |]; cbn [bind];
      try discriminate.
    destruct (rescale self v) as [v'| |]; cbn [bind]; try discriminate.
    unfold call_chisq. now intros H; injection H as <- <- <-.
  - cbn [bind].
    destruct (rescale self (start_vec c)) as [v'| |]; cbn [bind];
      try discriminate.
    unfold call_chisq. now intros H; injection H as <- <- <-.
Qed.

(** X14. The proposal covariance is adapted by the steps beyond the
    exploration time only, the comparison being strict: an iteration
    of step [i] leaves it alone when [i <= exploration_time] and updates
    it with the state after the decision otherwise, and the walk of a
    chain of at most [exploration_time + 1] steps ends with the
    covariance it started with. *)
Theorem covariance_adapts_after_exploration (self : Extractor_MCMC) :
  (forall i w c s w' c' s',
     mcmc_step self i (w, c, s) = Ok (w', c', s') ->
     ((i <= exploration_time self)%Z -> proposal_cov c' = proposal_cov c) /\
     ((exploration_time self < i)%Z ->
      proposal_cov c' = update_proposal_cov (proposal_cov c) (vec1 w'))) /\
  (forall fuel c s c' s',
     mcmc fuel self c s = Ok (c', s') ->
     (nsteps c <= exploration_time self + 1)%Z ->
     proposal_cov c' = proposal_cov c).
Proof.
  split.
  - intros i w c s w' c' s' Hs.
    apply mcmc_step_records in Hs as (_ & _ & _ & _ & _ & Hcov).
    split; intros Hi.
    + destruct (Z.gtb_spec i (exploration_time self)); [lia | exact Hcov].
    + destruct (Z.gtb_spec i (exploration_time self)); [exact Hcov | lia].
  - intros fuel c s c' s'. unfold mcmc.
    destruct (mcmc_start fuel self c s) as [[[w c1] s1]| |] eqn:Hs;
      cbn [bind]; try discriminate.
    destruct (mcmc_loop self _ (w, c1, s1)) as [[[w2 c2] s2]| |] eqn:Hl;
      cbn [bind]; try discriminate.
    intros H Hn; injection H as <- <-.
    apply mcmc_loop_explores in Hl.
    + rewrite Hl. now apply (mcmc_start_cov self fuel c s w c1 s1).
    + apply mcmc_start_inv in Hs as (v & c0 & s0 & _ & _ & _ & _ & _ & _ & _ & Ht & _).
      apply Forall_forall. intros i Hi. apply in_py_range in Hi. lia.
Qed.

(** The records that a loop adds. *)
Lemma mcmc_loop_records (self : Extractor_MCMC) keys : forall w c s w' c' s',
  mcmc_loop self keys (w, c, s) = Ok (w', c', s') ->
  length (draws s') = (length (draws s) + 2 * length keys)%nat /\
  (length (chisq_calls s) <= length (chisq_calls s')
   <= length (chisq_calls s) + length keys)%nat.
Proof.
  induction keys as [|i keys IH]; intros w c s w' c' s' H; cbn [mcmc_loop] in H.
  - injection H as <- <- <-. cbn. lia.
  - destruct (mcmc_step self i (w, c, s)) as [[[w1 c1] s1]| |] eqn:Hs;
      cbn [bind] in H; try discriminate.
    apply mcmc_step_records in Hs as (prior2 & _ & Hd & Hc & _).
    apply IH in H as (Hd' & Hc'). rewrite Hd' , Hd, length_app.
    rewrite Hc, length_app in Hc'. cbn [length].
    destruct (fgt prior2 (Fin 1e-10)); cbn [length] in Hc'; lia.
Qed.

(** X15. The walk of a chain with rows draws exactly two values for each
    of its steps, a proposal and a value [r], and calls [self.chisq] once
    before the loop and at most once per step; a chain that has all its
    rows still costs that first call. *)
Theorem walk_draws_and_calls (self : Extractor_MCMC) (fuel : nat) (c : Chain)
    (s : proc) (c' : Chain) (s' : proc) :
  start_key c <> (-1)%Z ->
  mcmc fuel self c s = Ok (c', s') ->
  let steps := Z.to_nat (nsteps c - (start_index c + 1)) in
  length (draws s') = (length (draws s) + 2 * steps)%nat /\
  (length (chisq_calls s) + 1 <= length (chisq_calls s')
   <= length (chisq_calls s) + 1 + steps)%nat.
Proof.
  intros Hk. unfold mcmc, mcmc_start, first_vector.
  apply Z.eqb_neq in Hk. rewrite Hk. cbn [bind].
  destruct (rescale self (start_vec c)) as [v'| |]; cbn [bind]; try discriminate.
  unfold call_chisq. cbn [bind].
  match goal with
  | |- context [mcmc_loop self ?ks ?st] =>
      destruct (mcmc_loop self ks st) as [[[w2 c2] s2]| |] eqn:Hl
  end; cbn [bind]; try discriminate.
  intros H; injection H as <- <-. cbn [draws chisq_calls].
  apply mcmc_loop_records in Hl as (Hd & Hc).
  unfold mcmc_keys in Hd, Hc. rewrite py_range_length in Hd, Hc.
  cbn [draws chisq_calls nsteps start_index set_start_vec set_start_index
       set_np_random] in Hd, Hc.
  rewrite length_app in Hc. cbn [length] in Hc.
  split; [exact Hd | lia].
Qed.

End WalkFacts.

Lemma toy_uniform_not_negative shift :
  forall g, 0 <= fst (@np_random_uniform (toy_external shift) g).
Proof. intros g. cbn. lra. Qed.

Lemma toy_cost_below_sentinel : below_sentinel (Fin 1) = true.
Proof.
  unfold below_sentinel. apply orb_true_iff. left.
  unfold fle. apply Rleb_true. lra.
Qed.

Lemma toy_start_within : none_outside Extractor_bounds Extractor_p = true.
Proof. apply prior_one_none_outside, prior_Extractor_p. Qed.

Lemma walk_stays_within_bounds_witness :
  let self := toy_self 1 (fun _ => Fin 1) in
  exists w' c' s' new,
    @mcmc_loop (toy_external 1) self [0; 1]%Z
       (toy_walker (Fin 1), toy_chain 1 0, toy_proc 1 0) = Ok (w', c', s') /\
    none_outside Extractor_bounds (vec1 w') = true /\
    rows c' = new /\
    Forall (fun r => none_outside Extractor_bounds (row_params (snd r)) = true)
           new.
Proof.
  intros self.
  destruct (@mcmc_loop_total (toy_external 1) self [0; 1]%Z
              (toy_proposals_fit 1 _) (toy_walker (Fin 1)) (toy_chain 1 0)
              (toy_proc 1 0) (toy_vec_fits 1 _)) as ([[w' c'] s'] & Hl).
  destruct (@walk_stays_within_bounds (toy_external 1) self [0; 1]%Z
              (toy_walker (Fin 1)) (toy_chain 1 0) (toy_proc 1 0) w' c' s'
              (toy_uniform_not_negative 1)
              (fun _ _ => toy_cost_below_sentinel)
              toy_start_within toy_cost_below_sentinel Hl)
    as (Hv & _ & new & Hr & Hall).
  exists w', c', s', new. repeat split; assumption.
Defined.

Lemma toy_two_returns :
  exists c' s',
    @mcmc (toy_external 1) 0 (toy_self 1 amplitude_cost) toy_chain_two
       (toy_proc 1 0) = Ok (c', s').
Proof.
  destruct (@mcmc_resumed (toy_external 1) (toy_self 1 amplitude_cost) 0
              toy_chain_two (toy_proc 1 0) ltac:(cbn; lia)
              (toy_rescale_defined 1 amplitude_cost Extractor_p
                 ltac:(discriminate))
              (toy_proposals_fit 1 _) (toy_vec_fits 1 _))
    as (v' & c' & s' & new & _ & Hm & _).
  now exists c', s'.
Qed.

Lemma covariance_adapts_after_exploration_witness :
  exists c' s',
    @mcmc (toy_external 1) 0 (toy_self 1 amplitude_cost) toy_chain_two
       (toy_proc 1 0) = Ok (c', s') /\
    (nsteps toy_chain_two <= exploration_time (toy_self 1 amplitude_cost) + 1)%Z /\
    proposal_cov c' = proposal_cov toy_chain_two.
Proof.
  destruct toy_two_returns as (c' & s' & Hm).
  exists c', s'. split; [exact Hm|].
  assert (Hn : (nsteps toy_chain_two
                <= exploration_time (toy_self 1 amplitude_cost) + 1)%Z)
    by (cbn; lia).
  split; [exact Hn|].
  exact (proj2 (@covariance_adapts_after_exploration (toy_external 1)
                  (toy_self 1 amplitude_cost)) 0%nat toy_chain_two
               (toy_proc 1 0) c' s' Hm Hn).
Defined.

Lemma walk_draws_and_calls_witness :
  exists c' s',
    @mcmc (toy_external 1) 0 (toy_self 1 amplitude_cost) toy_chain_two
       (toy_proc 1 0) = Ok (c', s') /\
    length (draws s') = 2%nat /\
    (1 <= length (chisq_calls s') <= 2)%nat.
Proof.
  destruct toy_two_returns as (c' & s' & Hm).
  exists c', s'. split; [exact Hm|].
  exact (@walk_draws_and_calls (toy_external 1) (toy_self 1 amplitude_cost)
           0 toy_chain_two (toy_proc 1 0) c' s' ltac:(cbn; lia) Hm).
Defined.

Section RunFacts.

Context {E : External}.

(** What the sampling leaves behind. *)
Lemma sample_inv (self : Extractor_MCMC) fuel o o1 :
  sample fuel self o = Ok o1 ->
  parent_random o1 = parent_random o /\
  self_likelihood o1 = self_likelihood o /\
  (exists written, file o1 = file o ++ written) /\
  (check_completness (file o) (self_nchains self) (self_nsteps self) = false ->
   chains_chains o1 = chains_chains o ++ new_chains self (file o) /\
   pools o1 = S (pools o) /\
   exists ws,
     walks o1 = walks o ++ ws /\
     map walk_chain ws = map nchain (chains_chains o1)).
Proof.
  unfold sample.
  destruct (check_completness (file o) _ _); cbn [negb].
  - intros H; injection H as <-. repeat split; try discriminate.
    exists []. now rewrite app_nil_r.
  - destruct (pool_map fuel self _ (parent_random o) (file o))
      as [[log ws]| |] eqn:Hp; cbn [bind]; try discriminate.
    intros H; injection H as <-.
    cbn [parent_random self_likelihood file chains_chains pools walks].
    split; [reflexivity|]. split; [reflexivity|]. split.
    + apply pool_map_inv in Hp as (written & -> & _). now exists written.
    + intros _. split; [reflexivity|]. split; [reflexivity|].
      exists ws. split; [reflexivity|].
      apply pool_map_draws in Hp.
      induction Hp as [|c r cs rs [Hc _] _ IH]; [reflexivity|].
      cbn [map]. now rewrite Hc, IH.
Qed.

Lemma new_chains_length (self : Extractor_MCMC) log :
  length (new_chains self log) = Z.to_nat (self_nchains self).
Proof.
  unfold new_chains. rewrite length_map, py_range_length. f_equal. lia.
Qed.

(** X16. [run_mcmc] only ever appends to the row log, and the calling
    process draws nothing: a run that returns leaves the rows it found at
    the head of the log, in order, and the generator of the calling
    process as it was. *)
Theorem run_appends_to_log (self : Extractor_MCMC) (fuel : nat)
    (o o1 : session) :
  run_mcmc fuel self o = Ok o1 ->
  (exists written,
     file o1 = file o ++ written /\
     forall n, chain_rows (file o1) n
               = chain_rows (file o) n ++ chain_rows written n) /\
  parent_random o1 = parent_random o.
Proof.
  unfold run_mcmc.
  destruct (sample fuel self o) as [o0| |] eqn:Hs; cbn [bind]; try discriminate.
  intros H; injection H as <-. cbn [summarise file parent_random].
  apply sample_inv in Hs as (Hg & _ & (written & Hf) & _).
  split; [|exact Hg].
  exists written. split; [exact Hf|].
  intros n. rewrite Hf. apply chain_rows_app.
Qed.

(** X17. A run on an incomplete row log adds [nchains] new [Chain]
    objects to [self.chains.chains] and walks every chain of the list in
    one new pool, those of earlier runs included. *)
Theorem incomplete_run_walks_every_chain (self : Extractor_MCMC) (fuel : nat)
    (o o1 : session) :
  check_completness (file o) (self_nchains self) (self_nsteps self) = false ->
  run_mcmc fuel self o = Ok o1 ->
  chains_chains o1 = chains_chains o ++ new_chains self (file o) /\
  length (chains_chains o1)
  = (length (chains_chains o) + Z.to_nat (self_nchains self))%nat /\
  pools o1 = S (pools o) /\
  exists ws,
    walks o1 = walks o ++ ws /\
    map walk_chain ws = map nchain (chains_chains o1).
Proof.
  intros Hc. unfold run_mcmc.
  destruct (sample fuel self o) as [o0| |] eqn:Hs; cbn [bind]; try discriminate.
  intros H; injection H as <-. cbn [summarise chains_chains pools walks].
  apply sample_inv in Hs as (_ & _ & _ & Hi).
  destruct (Hi Hc) as (Hcs & Hp & ws & Hw & Hm).
  split; [exact Hcs|]. split.
  - rewrite Hcs, length_app, new_chains_length. reflexivity.
  - split; [exact Hp|]. now exists ws.
Qed.

Lemma Chain_init_first_key log covf n total :
  (0 <= first_key (Chain_init log covf n total))%Z /\
  rows (Chain_init log covf n total) = [].
Proof.
  unfold Chain_init, first_key.
  pose proof (length_rev (chain_rows log n)) as Hlen.
  destruct (rev (chain_rows log n)) as [|[key line] rest];
    cbn [start_key start_index rows].
  - split; [cbn; lia | reflexivity].
  - cbn [length] in Hlen. split; [|reflexivity].
    destruct (key =? -1)%Z; lia.
Qed.

(** The rows that the walk of a chain writes, with their keys and local
    indices. *)
Lemma mcmc_rows (self : Extractor_MCMC) fuel c s c' s' :
  mcmc fuel self c s = Ok (c', s') ->
  exists new,
    chains_file s' = chains_file s ++ rows c ++ new /\
    Forall (fun r =>
              row_chain (snd r) = nchain c /\
              (first_key c <= row_index (snd r) < nsteps c)%Z /\
              fst r = step_key c (row_index (snd r))) new.
Proof.
  unfold mcmc.
  destruct (mcmc_start fuel self c s) as [[[w c1] s1]| |] eqn:Hs; cbn [bind];
    try discriminate.
  destruct (mcmc_loop self _ (w, c1, s1)) as [[[w2 c2] s2]| |] eqn:Hl;
    cbn [bind]; try discriminate.
  intros H; injection H as <- <-. cbn [chains_file]. unfold append2file.
  apply mcmc_loop_inv in Hl as (new & Hrows & Hkeys & Hidx & Hch & _ & Hf).
  apply mcmc_start_inv in Hs
    as (v & c0 & s0 & Hfv & _ & _ & Hfile & _ & Hr1 & Hn1 & Ht1 & Hi1).
  apply first_vector_inv in Hfv as (_ & _ & _ & _ & _ & _ & Hres & Hnew).
  assert (Hfirst : start_index c1 = first_key c).
  { rewrite Hi1. unfold first_key. destruct (start_key c =? -1)%Z eqn:Hk.
    - apply Z.eqb_eq in Hk. now destruct (Hnew Hk) as [-> _].
    - apply Z.eqb_neq in Hk. now destruct (Hres Hk) as (_ & -> & _). }
  exists new. rewrite Hf, Hfile, Hrows, Hr1. split; [reflexivity|].
  unfold mcmc_keys in Hkeys, Hidx. rewrite Ht1, Hfirst in Hkeys, Hidx.
  clear -Hkeys Hidx Hch Hn1 Ht1.
  assert (Hstep : forall i, step_key c1 i = step_key c i)
    by (intros i; unfold step_key; now rewrite Hn1, Ht1).
  rewrite (map_ext _ _ Hstep) in Hkeys. rewrite <- Hidx, map_map in Hkeys.
  assert (Hin : forall r, In r new ->
                  (first_key c <= row_index (snd r) < nsteps c)%Z).
  { intros r Hr. apply in_py_range. rewrite <- Hidx.
    now apply (in_map (fun r => row_index (snd r))). }
  clear Hidx. rewrite Hn1 in Hch.
  induction new as [|r new IH]; constructor.
  - inversion Hch; subst. injection Hkeys as Hk _.
    repeat split; try assumption; apply Hin; now left.
  - inversion Hch; subst. injection Hkeys as _ Hk.
    apply IH; try assumption. intros r' Hr'. apply Hin. now right.
Qed.

(** X18. The walk of chain [n], as [run_mcmc] builds it, writes rows of
    chain [n] only, with local indices from 0 below [nsteps] and keys in
    the block [n * nsteps, (n + 1) * nsteps); the rows that the walks of
    two different chains write therefore never share a key. *)
Theorem chains_write_distinct_keys (self : Extractor_MCMC) (fuel1 fuel2 : nat)
    (log1 log2 : list row) (n1 n2 : Z) (s1 s2 : proc) (c1' c2' : Chain)
    (s1' s2' : proc) :
  n1 <> n2 ->
  mcmc fuel1 self (Chain_init log1 (covfile self) n1 (self_nsteps self)) s1
  = Ok (c1', s1') ->
  mcmc fuel2 self (Chain_init log2 (covfile self) n2 (self_nsteps self)) s2
  = Ok (c2', s2') ->
  exists new1 new2,
    chains_file s1' = chains_file s1 ++ new1 /\
    chains_file s2' = chains_file s2 ++ new2 /\
    Forall (fun r => row_chain (snd r) = n1 /\
                     (n1 * self_nsteps self <= fst r
                      < (n1 + 1) * self_nsteps self)%Z) new1 /\
    Forall (fun r => row_chain (snd r) = n2 /\
                     (n2 * self_nsteps self <= fst r
                      < (n2 + 1) * self_nsteps self)%Z) new2 /\
    forall r1 r2, In r1 new1 -> In r2 new2 -> fst r1 <> fst r2.
Proof.
  intros Hn H1 H2.
  apply mcmc_rows in H1 as (new1 & Hf1 & Hall1).
  apply mcmc_rows in H2 as (new2 & Hf2 & Hall2).
  destruct (Chain_init_header log1 (covfile self) n1 (self_nsteps self))
    as (Hn1 & Ht1 & _).
  destruct (Chain_init_header log2 (covfile self) n2 (self_nsteps self))
    as (Hn2 & Ht2 & _).
  destruct (Chain_init_first_key log1 (covfile self) n1 (self_nsteps self))
    as (Hk1 & Hr1).
  destruct (Chain_init_first_key log2 (covfile self) n2 (self_nsteps self))
    as (Hk2 & Hr2).
  rewrite Hr1 in Hf1. rewrite Hr2 in Hf2. cbn [app] in Hf1, Hf2.
  unfold step_key in Hall1, Hall2.
  rewrite Hn1, Ht1 in Hall1. rewrite Hn2, Ht2 in Hall2.
  rewrite Forall_forall in Hall1, Hall2.
  exists new1, new2. split; [exact Hf1|]. split; [exact Hf2|].
  split; [|split].
  - apply Forall_forall. intros r Hr.
    destruct (Hall1 r Hr) as (Hc & Hi & Hkey). split; [exact Hc|]. lia.
  - apply Forall_forall. intros r Hr.
    destruct (Hall2 r Hr) as (Hc & Hi & Hkey). split; [exact Hc|]. lia.
  - intros r1 r2 Hin1 Hin2 Heq.
    destruct (Hall1 r1 Hin1) as (_ & Hi1 & Hkey1).
    destruct (Hall2 r2 Hin2) as (_ & Hi2 & Hkey2).
    rewrite Hkey1, Hkey2 in Heq.
    apply key_injective in Heq as [_ Heq]; [now apply Hn | lia | lia].
Qed.

(** X19. Lines 268-269 can move the starting vector out of the bounds:
    when the maximum of the simulation is positive, the maximum of the
    data is negative and the lower bound of the amplitude is 0, a positive
    amplitude is rescaled to a negative one, the prior weight of the
    rescaled vector is 0, and the walk of a chain with rows starts from
    it all the same. *)
Theorem rescale_can_leave_bounds (self : Extractor_MCMC) (fuel : nat)
    (c : Chain) (s : proc) (a : R) (rest : vec) (m d : R) :
  start_key c <> (-1)%Z ->
  start_vec c = Fin a :: rest ->
  np_max (fst (simulation self (Fin a :: rest))
          ++ snd (simulation self (Fin a :: rest))) = Ok (Fin m) ->
  np_max (spectrum_data self) = Ok (Fin d) ->
  getitem (fst (bounds self)) 0 = Ok (Fin 0) ->
  0 < m -> d < 0 -> 0 < a ->
  let v' := Fin (a * (d / m)) :: rest in
  rescale self (Fin a :: rest) = Ok v' /\
  prior (bounds self) v' = Ok (Fin 0) /\
  exists w c' s',
    mcmc_start fuel self c s = Ok (w, c', s') /\ vec1 w = v'.
Proof.
  intros Hk Hv Hm Hd Hlo Hmpos Hdneg Ha v'.
  assert (Hr : rescale self (Fin a :: rest) = Ok v').
  { unfold rescale. rewrite Hm. cbn [bind].
    replace (fgt (Fin m) (Fin 0)) with true
      by (symmetry; unfold fgt, flt; now apply Rltb_true).
    cbn [getitem nth_error bind]. rewrite Hd. cbn [bind].
    unfold fdiv.
    replace (Rltb 0 m) with true by (symmetry; now apply Rltb_true).
    reflexivity. }
  split; [exact Hr|]. split.
  - unfold prior, v'. cbn [prior_loop]. rewrite Hlo. cbn [bind].
    replace (flt (Fin (a * (d / m))) (Fin 0)) with true; [reflexivity|].
    symmetry. unfold flt. apply Rltb_true.
    assert (Hinv : 0 < / m) by now apply Rinv_0_lt_compat.
    assert (Hq : d / m < 0) by (unfold Rdiv; nra).
    nra.
  - unfold mcmc_start, first_vector.
    apply Z.eqb_neq in Hk. rewrite Hk. cbn [bind].
    rewrite Hv, Hr. cbn [bind]. unfold call_chisq.
    eexists; eexists; eexists. split; reflexivity.
Qed.

End RunFacts.

Lemma toy_run_returns :
  exists o1,
    @run_mcmc (toy_external 1) 0 (toy_self 1 amplitude_cost) toy_session = Ok o1.
Proof.
  set (self := toy_self 1 amplitude_cost).
  destruct (@pool_map_resumed (toy_external 1) self 0 0%nat
              (new_chains self toy_log2) (toy_proposals_fit 1 _)
              toy_new_chains_resumed toy_log2) as (log' & ws & Hp).
  eexists. unfold run_mcmc, sample.
  change (check_completness (file toy_session) (self_nchains self)
            (self_nsteps self)) with false.
  cbn [negb].
  change (chains_chains toy_session ++ new_chains self (file toy_session))
    with (new_chains self toy_log2).
  change (parent_random toy_session) with 0%nat.
  change (file toy_session) with toy_log2.
  rewrite Hp. reflexivity.
Qed.

Lemma run_appends_to_log_witness :
  exists o1 written,
    @run_mcmc (toy_external 1) 0 (toy_self 1 amplitude_cost) toy_session = Ok o1 /\
    file o1 = toy_log2 ++ written /\
    parent_random o1 = 0%nat.
Proof.
  destruct toy_run_returns as (o1 & Hrun).
  destruct (@run_appends_to_log (toy_external 1) (toy_self 1 amplitude_cost) 0
              toy_session o1 Hrun) as ((written & Hf & _) & Hg).
  exists o1, written. repeat split; assumption.
Defined.

Lemma incomplete_run_walks_every_chain_witness :
  exists o1 ws,
    @run_mcmc (toy_external 1) 0 (toy_self 1 amplitude_cost) toy_session = Ok o1 /\
    length (chains_chains o1) = 2%nat /\
    pools o1 = 1%nat /\
    walks o1 = ws /\
    map walk_chain ws = map nchain (chains_chains o1).
Proof.
  destruct toy_run_returns as (o1 & Hrun).
  destruct (@incomplete_run_walks_every_chain (toy_external 1)
              (toy_self 1 amplitude_cost) 0 toy_session o1 eq_refl Hrun)
    as (_ & Hlen & Hp & ws & Hw & Hm).
  exists o1, ws. repeat split; assumption.
Defined.

Lemma toy_chain_returns (log : list row) (n : Z) :
  let self := toy_self 1 amplitude_cost in
  let c := @Chain_init (toy_external 1) log (covfile self) n (self_nsteps self) in
  start_key c <> (-1)%Z ->
  start_vec c = Extractor_p ->
  exists c' s', @mcmc (toy_external 1) 0 self c (toy_proc 1 0) = Ok (c', s').
Proof.
  intros self c Hk Hv.
  assert (Hdef : @rescale_defined (toy_external 1) self (start_vec c))
    by (rewrite Hv; apply toy_rescale_defined; discriminate).
  assert (Hfit : @vec_fits (toy_external 1) self (start_vec c))
    by (rewrite Hv; apply toy_vec_fits).
  destruct (@mcmc_resumed (toy_external 1) self 0 c (toy_proc 1 0) Hk Hdef
              (toy_proposals_fit 1 _) Hfit)
    as (v' & c' & s' & new & _ & Hm & _).
  now exists c', s'.
Qed.

Lemma chains_write_distinct_keys_witness :
  let self := toy_self 1 amplitude_cost in
  exists c1' s1' c2' s2' new1 new2,
    @mcmc (toy_external 1) 0 self
       (Chain_init toy_log (covfile self) 0 (self_nsteps self)) (toy_proc 1 0)
    = Ok (c1', s1') /\
    @mcmc (toy_external 1) 0 self
       (Chain_init toy_log2 (covfile self) 1 (self_nsteps self)) (toy_proc 1 0)
    = Ok (c2', s2') /\
    chains_file s1' = new1 /\
    chains_file s2' = new2 /\
    forall r1 r2, In r1 new1 -> In r2 new2 -> fst r1 <> fst r2.
Proof.
  intros self.
  destruct (toy_chain_returns toy_log 0 ltac:(cbn; lia) eq_refl)
    as (c1' & s1' & H1).
  destruct (toy_chain_returns toy_log2 1 ltac:(cbn; lia) eq_refl)
    as (c2' & s2' & H2).
  destruct (@chains_write_distinct_keys (toy_external 1) self 0 0 toy_log
              toy_log2 0 1 (toy_proc 1 0) (toy_proc 1 0) c1' c2' s1' s2'
              ltac:(lia) H1 H2)
    as (new1 & new2 & Hf1 & Hf2 & _ & _ & Hne).
  exists c1', s1', c2', s2', new1, new2. repeat split; assumption.
Defined.

Lemma toy_np_max_negative : np_max [Fin (-1); Fin (-2)] = Ok (Fin (-1)).
Proof. fcompute. reflexivity. Qed.

Lemma rescale_can_leave_bounds_witness :
  rescale toy_self_negative Extractor_p
  = Ok (Fin (1 * (-1 / 1)) :: tl Extractor_p) /\
  prior Extractor_bounds (Fin (1 * (-1 / 1)) :: tl Extractor_p) = Ok (Fin 0).
Proof.
  destruct (@rescale_can_leave_bounds (toy_external 1) toy_self_negative 0
              toy_chain_two (toy_proc 1 0) 1 (tl Extractor_p) 1 (-1)
              ltac:(cbn; lia) eq_refl toy_np_max_sim toy_np_max_negative
              eq_refl ltac:(lra) ltac:(lra) ltac:(lra))
    as (Hr & Hp & _).
  split; [exact Hr | exact Hp].
Defined.

Section FirstDraw.

Context {E : External}.

Lemma flt_one_start : flt (Fin 1) (Fin 1e-9) = false.
Proof. unfold flt. apply Rltb_false. lra. Qed.

Lemma flt_zero_start : flt (Fin 0) (Fin 1e-9) = true.
Proof. unfold flt. apply Rltb_true. lra. Qed.

(** What the loop of lines 261-265 has drawn when it ends. *)
Lemma draw_first_draws (self : Extractor_MCMC) (c : Chain) fuel :
  forall s v s',
  draw_first fuel self c s = Ok (v, s') ->
  prior (bounds self) v = Ok (Fin 1) /\
  chisq_calls s' = chisq_calls s /\
  exists rejected,
    draws s' = draws s ++ map Proposal rejected ++ [Proposal v] /\
    Forall (fun u => prior (bounds self) u = Ok (Fin 0)) rejected /\
    (length rejected < fuel)%nat.
Proof.
  induction fuel as [|fuel IH]; intros s v s' H; cbn [draw_first] in H;
    [discriminate|].
  unfold call_draw_vector in H.
  destruct (draw_vector (proposal_cov c) (start_vec c) (np_random s))
    as [v1 g1].
  destruct (prior (bounds self) v1) as [p| |] eqn:Hp; cbn [bind] in H;
    try discriminate.
  destruct (prior_values _ _ _ Hp) as [-> | ->].
  - rewrite flt_one_start in H. injection H as <- <-.
    cbn [chisq_calls draws]. split; [exact Hp|]. split; [reflexivity|].
    exists []. repeat split; [constructor | cbn; lia].
  - rewrite flt_zero_start in H.
    apply IH in H as (Hv & Hc & rejected & Hd & Hall & Hlen).
    cbn [chisq_calls draws] in Hc, Hd.
    split; [exact Hv|]. split; [exact Hc|].
    exists (v1 :: rejected). rewrite Hd, <- app_assoc. cbn [map app length].
    repeat split; [now constructor | lia].
Qed.

Lemma draw_first_never (self : Extractor_MCMC) (c : Chain) :
  (forall g, prior (bounds self)
               (fst (draw_vector (proposal_cov c) (start_vec c) g))
             = Ok (Fin 0)) ->
  forall fuel s, draw_first fuel self c s = OutOfFuel.
Proof.
  intros Hout. induction fuel as [|fuel IH]; intros s; cbn [draw_first];
    [reflexivity|].
  unfold call_draw_vector. specialize (Hout (np_random s)).
  destruct (draw_vector (proposal_cov c) (start_vec c) (np_random s))
    as [v1 g1].
  cbn [fst] in Hout. rewrite Hout. cbn [bind].
  rewrite flt_zero_start. apply IH.
Qed.

(** X20. The loop of lines 261-265 draws around [chain.start_vec] until
    a draw has prior weight 1: when it ends it has drawn proposals only,
    all but the last of prior weight 0, and has not called [self.chisq];
    when every draw around [chain.start_vec] lies outside the bounds it
    never ends. *)
Theorem first_draw_loop (self : Extractor_MCMC) (c : Chain) :
  (forall fuel s v s',
     draw_first fuel self c s = Ok (v, s') ->
     prior (bounds self) v = Ok (Fin 1) /\
     chisq_calls s' = chisq_calls s /\
     exists rejected,
       draws s' = draws s ++ map Proposal rejected ++ [Proposal v] /\
       Forall (fun u => prior (bounds self) u = Ok (Fin 0)) rejected /\
       (length rejected < fuel)%nat) /\
  ((forall g, prior (bounds self)
                (fst (draw_vector (proposal_cov c) (start_vec c) g))
              = Ok (Fin 0)) ->
   forall fuel s, draw_first fuel self c s = OutOfFuel).
Proof.
  split.
  - intros fuel. apply draw_first_draws.
  - apply draw_first_never.
Qed.

End FirstDraw.

Lemma toy_draw_first :
  @draw_first (toy_external 1) 1 (toy_self 1 amplitude_cost) (toy_chain 1 0)
     (toy_proc 1 0)
  = Ok (toy_draw 1 Extractor_p,
        {| np_random := 1%nat : @rng (toy_external 1); chains_file := [];
           chisq_calls := []; draws := [Proposal (toy_draw 1 Extractor_p)] |}).
Proof.
  cbn [draw_first]. unfold call_draw_vector.
  cbn [draw_vector toy_external proposal_cov toy_chain start_vec np_random
       toy_proc bounds toy_self chains_file chisq_calls draws app].
  rewrite toy_prior_inside. cbn [bind]. rewrite flt_one_start. reflexivity.
Qed.

Lemma first_draw_loop_witness :
  (exists rejected,
     [Proposal (toy_draw 1 Extractor_p)]
     = [] ++ map Proposal rejected ++ [Proposal (toy_draw 1 Extractor_p)] /\
     (length rejected < 1)%nat) /\
  forall fuel,
    @draw_first (toy_external (-2)) fuel (toy_self (-2) amplitude_cost)
       (toy_chain (-2) 0) (toy_proc (-2) 0) = OutOfFuel.
Proof.
  split.
  - destruct (proj1 (@first_draw_loop (toy_external 1)
                       (toy_self 1 amplitude_cost) (toy_chain 1 0))
                    1%nat (toy_proc 1 0) _ _ toy_draw_first)
      as (_ & _ & rejected & Hd & _ & Hlen).
    exists rejected. split; [exact Hd | exact Hlen].
  - intros fuel.
    apply (proj2 (@first_draw_loop (toy_external (-2))
                    (toy_self (-2) amplitude_cost) (toy_chain (-2) 0))).
    intros g. exact toy_prior_outside.
Defined.
